(** * BaseJsonLib: a reference-counted JSON document model

    Shallow embedding of [RedfishPkg/Library/BaseJsonLib/BaseJsonLib.c].
    The library is a thin layer over a JSON value store: every public
    function forwards to a [json_*] primitive after its own checks.  The
    public functions are transcribed from the C file; the [json_*]
    primitives, whose code is not part of the C file, are modelled from the
    written specification and marked as such. *)

From stdpp Require Import base option list gmap.
From Stdlib Require Import ZArith Lia.

(** ** Data model *)

(** Addresses of allocated values. *)
Abbreviation loc := positive.

(** The kinds of a value ([json_type]). *)
Inductive json_type : Set :=
| JSON_OBJECT | JSON_ARRAY | JSON_STRING | JSON_INTEGER
| JSON_TRUE | JSON_FALSE | JSON_NULL.

(** A non-NULL [json_t *].  Null and the two booleans are canonical
    statically allocated values; every other value lives in a cell of the
    store. *)
Inductive json_ref : Set :=
| JNull
| JTrue
| JFalse
| JCell (l : loc).

(** A pointer-typed argument: [None] is the C [NULL]. *)
Abbreviation EDKII_JSON_VALUE := (option json_ref).
Abbreviation EDKII_JSON_ARRAY := (option json_ref).
Abbreviation EDKII_JSON_OBJECT := (option json_ref).

(** A [CHAR8 *]: [None] is [NULL]; [Some mem] points at the bytes [mem],
    which are followed in memory by a terminating NUL.  A byte is its bit
    pattern, a number in [0, 256): whether [CHAR8] is signed or not, the
    test of bit [0x80] reads the same bit. *)
Abbreviation CHAR8_ptr := (option (list Z)).

(** Payload of an allocated value.  A string keeps its bytes without the
    terminator; an array keeps one reference per slot; an object keeps its
    bindings in iteration order. *)
Inductive payload : Type :=
| VInteger (n : Z)
| VString (s : list Z)
| VArray (items : list json_ref)
| VObject (entries : list (list Z * json_ref)).

Record json_t : Type := Cell { refcount : nat; body : payload }.

(** The store: the allocated cells, the answers the allocator will give
    to the coming storage requests ([true]: granted; an exhausted list
    refuses every request), and the pool buffers that the library obtained
    for its own use and has not freed.  A buffer that a function returns is
    its caller's, and is not listed. *)
Record heap : Type :=
  Heap { cells : gmap loc json_t; pool : list bool; buffers : list (list Z) }.

Inductive EFI_STATUS : Set := EFI_SUCCESS | EFI_ABORTED.

(** Outcome of an operation that walks the store.  [Undefined] is the use
    of a value whose storage was already released, [Exhausted] the exhaustion
    of the step budget of [release_all]. *)
Inductive outcome (A : Type) : Type :=
| Done (a : A)
| Undefined
| Exhausted.
Arguments Done {A} a.
Arguments Undefined {A}.
Arguments Exhausted {A}.

#[global] Instance json_ref_eq_dec : EqDecision json_ref.
Proof. solve_decision. Defined.

#[global] Instance json_type_eq_dec : EqDecision json_type.
Proof. solve_decision. Defined.

(** ** The value store *)

(** Modelled from the spec: the allocator behind every constructor (the
    firmware pool) is absent; a storage request takes the next answer of
    [pool]. *)
Definition draw (p : list bool) : bool * list bool :=
  match p with
  | [] => (false, [])
  | b :: p' => (b, p')
  end.

(** Modelled from the spec: [json_typeof] and the type predicates are
    absent ("pure, no side effects, false for a null/absent handle").  A
    handle whose cell is not in the store has no kind. *)
Definition json_typeof (m : gmap loc json_t) (json : EDKII_JSON_VALUE)
  : option json_type :=
  match json with
  | None => None
  | Some JNull => Some JSON_NULL
  | Some JTrue => Some JSON_TRUE
  | Some JFalse => Some JSON_FALSE
  | Some (JCell l) =>
      match m !! l with
      | Some (Cell _ (VInteger _)) => Some JSON_INTEGER
      | Some (Cell _ (VString _)) => Some JSON_STRING
      | Some (Cell _ (VArray _)) => Some JSON_ARRAY
      | Some (Cell _ (VObject _)) => Some JSON_OBJECT
      | None => None
      end
  end.

(** Modelled from the spec: the type predicates [json_is_array], ... are
    absent; each compares the kind of the handle with its own. *)
Definition json_is (t : json_type) (m : gmap loc json_t)
    (json : EDKII_JSON_VALUE) : bool :=
  bool_decide (json_typeof m json = Some t).

Definition json_is_array := json_is JSON_ARRAY.
Definition json_is_object := json_is JSON_OBJECT.
Definition json_is_string := json_is JSON_STRING.
Definition json_is_integer := json_is JSON_INTEGER.
Definition json_is_null := json_is JSON_NULL.
Definition json_is_true := json_is JSON_TRUE.
Definition json_is_false := json_is JSON_FALSE.
Definition json_is_boolean (m : gmap loc json_t) (json : EDKII_JSON_VALUE)
  : bool :=
  json_is_true m json || json_is_false m json.

(** Modelled from the spec: the constructors [json_array], [json_object],
    [json_integer] and [json_string] are absent.  A constructor asks the
    allocator for one value; on success the value sits in a cell no live
    value occupies, with reference count 1. *)
Definition json_new (st : heap) (b : payload) : EDKII_JSON_VALUE * heap :=
  let (granted, p) := draw (pool st) in
  if granted
  then let l := fresh (dom (cells st)) in
       (Some (JCell l), Heap (<[l := Cell 1 b]> (cells st)) p (buffers st))
  else (None, Heap (cells st) p (buffers st)).

(** Modelled from the spec: [json_array] is absent ("returns new empty
    array, refcount 1"). *)
Definition json_array (st : heap) : EDKII_JSON_VALUE * heap :=
  json_new st (VArray []).

(** Modelled from the spec: [json_object] is absent ("returns new empty
    object, refcount 1"). *)
Definition json_object (st : heap) : EDKII_JSON_VALUE * heap :=
  json_new st (VObject []).

(** Modelled from the spec: [json_integer] is absent (a "64-bit signed
    integer" payload, refcount 1). *)
Definition json_integer (st : heap) (value : Z) : EDKII_JSON_VALUE * heap :=
  json_new st (VInteger value).

(** Bytes of a C string: what lies before the first NUL. *)
Fixpoint cstr (mem : list Z) : list Z :=
  match mem with
  | [] => []
  | c :: rest => if (c =? 0)%Z then [] else c :: cstr rest
  end.

(** Modelled from the spec: [json_string] is absent ("stores a private
    ... copy, refcount 1"); it copies the bytes up to the terminator. *)
Definition json_string (st : heap) (value : CHAR8_ptr)
  : EDKII_JSON_VALUE * heap :=
  match value with
  | None => (None, st)
  | Some mem => json_new st (VString (cstr mem))
  end.

(** Modelled from the spec: [json_string_value] is absent ("returns a
    read-only view into the stored bytes"); [NULL] unless the value is a
    string. *)
Definition json_string_value (m : gmap loc json_t) (json : EDKII_JSON_VALUE)
  : CHAR8_ptr :=
  match json with
  | Some (JCell l) =>
      match m !! l with
      | Some (Cell _ (VString s)) => Some s
      | _ => None
      end
  | _ => None
  end.

(** Modelled from the spec: [json_integer_value] is absent; the stored
    integer, 0 for anything else. *)
Definition json_integer_value (m : gmap loc json_t) (json : EDKII_JSON_VALUE)
  : Z :=
  match json with
  | Some (JCell l) =>
      match m !! l with
      | Some (Cell _ (VInteger n)) => n
      | _ => 0%Z
      end
  | _ => 0%Z
  end.

(** ** String construction and retrieval (BaseJsonLib.c) *)

(** The validation loop shared by [JsonValueInitAsciiString] and
    [JsonValueGetAsciiString]: starting at [Index = 0], while the byte at
    [String + Index] is not NUL, return [NULL] if that byte has bit [0x80]
    set, else increment [Index].  The argument is the list of bytes from
    [String + Index] on; its end is the terminating NUL.  The result is
    [false] when the loop leaves through [return NULL]. *)
Fixpoint ascii_loop (String_at_Index : list Z) : bool :=
  match String_at_Index with
  | [] => true
  | c :: rest =>
      if (c =? 0)%Z then true
      else if negb (Z.land c 0x80 =? 0x00)%Z then false
      else ascii_loop rest
  end.

Definition JsonValueInitAsciiString (st : heap) (String : CHAR8_ptr)
  : EDKII_JSON_VALUE * heap :=
  match String with
  | None => (None, st)
  | Some mem =>
      if ascii_loop mem then json_string st (Some mem) else (None, st)
  end.

Definition JsonValueGetAsciiString (st : heap) (Json : EDKII_JSON_VALUE)
  : CHAR8_ptr :=
  match json_string_value (cells st) Json with
  | None => None
  | Some AsciiStr => if ascii_loop AsciiStr then Some AsciiStr else None
  end.

(** ** Wide strings *)

Section Transcoding.

(** Modelled from the spec: the transcoder [UCS2StrToUTF8] is absent
    ("toNarrow(wide) -> narrow-or-error"); [None] is an error status, and
    a wide string is its list of 16-bit code units.  On success the
    transcoder stores, through its second argument, the address of a pool
    buffer of its own that holds the narrow string. *)
Variable UCS2StrToUTF8 : list Z → option (list Z).

(** [Utf8Str] receives the buffer of the transcoder.  [json_string] copies
    the bytes, and the function returns without freeing the buffer: it
    stays in [buffers], and no pointer to it is left. *)
Definition JsonValueInitUnicodeString (st : heap) (String : option (list Z))
  : EDKII_JSON_VALUE * heap :=
  match String with
  | None => (None, st)
  | Some wide =>
      match UCS2StrToUTF8 wide with
      | None => (None, st)
      | Some Utf8Str =>
          json_string (Heap (cells st) (pool st) (Utf8Str :: buffers st))
                      (Some Utf8Str)
      end
  end.

End Transcoding.

Section WideGetter.

(** Modelled from the spec: the transcoder [UTF8StrToUCS2] is absent
    ("toWide(narrow) -> wide-or-error"); [None] is an error status. *)
Variable UTF8StrToUCS2 : list Z → option (list Z).

Definition JsonValueGetUnicodeString (st : heap) (Json : EDKII_JSON_VALUE)
  : option (list Z) :=
  match json_string_value (cells st) Json with
  | None => None
  | Some Utf8Str =>
      match UTF8StrToUCS2 Utf8Str with
      | None => None
      | Some Ucs2Str => Some Ucs2Str
      end
  end.

End WideGetter.

(** ** Reference counting *)

(** The references a value holds: one per array slot, one per binding. *)
Definition children (c : json_t) : list json_ref :=
  match body c with
  | VArray items => items
  | VObject entries => entries.*2
  | _ => []
  end.

(** Modelled from the spec: [json_incref] is absent ("retain(v):
    increments refcount (no-op for singletons). No error condition"). *)
Definition json_incref (m : gmap loc json_t) (json : EDKII_JSON_VALUE)
  : gmap loc json_t :=
  match json with
  | Some (JCell l) => alter (λ c, Cell (S (refcount c)) (body c)) l m
  | _ => m
  end.

(** Modelled from the spec: [json_decref] and the destruction of a value
    are absent ("release(v): decrements refcount; on reaching zero, if kind
    is Array or Object, releases every contained reference (recursively,
    depth-first) before freeing"; the design notes ask for an explicit
    work-list).  [work] is the list of references still to release, the
    children of a destroyed value going to its front.  A destroyed value
    leaves the store at once, so that a later release of it (a double
    release, or a cycle through it) is [Undefined]. *)
Fixpoint release_all (budget : nat) (work : list json_ref)
    (m : gmap loc json_t) {struct budget} : outcome (gmap loc json_t) :=
  match work with
  | [] => Done m
  | json :: rest =>
      match budget with
      | 0 => Exhausted
      | S budget' =>
          match json with
          | JCell l =>
              match m !! l with
              | None => Undefined
              | Some c =>
                  if decide (refcount c - 1 = 0)
                  then release_all budget' (children c ++ rest) (delete l m)
                  else release_all budget' rest
                         (<[l := Cell (refcount c - 1) (body c)]> m)
              end
          | _ => release_all budget' rest m
          end
      end
  end.

(** Sum of a measure over the cells of the store. *)
Definition store_sum (f : json_t → nat) (m : gmap loc json_t) : nat :=
  map_fold (λ _ c n, f c + n) 0 m.

(** Number of references held inside the store. *)
Definition slots (m : gmap loc json_t) : nat :=
  store_sum (λ c, length (children c)) m.

(** Modelled from the spec: the release procedure with the budget it
    needs.  Every step of [release_all] consumes one pending reference or
    one slot of the store, which bounds the number of steps. *)
Definition release (m : gmap loc json_t) (work : list json_ref)
  : outcome (gmap loc json_t) :=
  release_all (length work + slots m) work m.

(** Modelled from the spec: [json_decref] is absent; it releases one
    reference, and does nothing for [NULL]. *)
Definition json_decref (m : gmap loc json_t) (json : EDKII_JSON_VALUE)
  : outcome (gmap loc json_t) :=
  match json with
  | None => Done m
  | Some v => release m [v]
  end.

Definition bind_outcome {A B} (o : outcome A) (k : A → outcome B)
  : outcome B :=
  match o with
  | Done a => k a
  | Undefined => Undefined
  | Exhausted => Exhausted
  end.

Notation "x ←! o ; k" := (bind_outcome o (λ x, k))
  (at level 20, o at level 100, k at level 200, right associativity,
   only parsing).

(** ** Arrays *)

(** Modelled from the spec: [json_array_size] is absent ("0 if a absent or
    not an array"). *)
Definition json_array_size (m : gmap loc json_t) (json : EDKII_JSON_VALUE)
  : nat :=
  match json with
  | Some (JCell l) =>
      match m !! l with
      | Some (Cell _ (VArray items)) => length items
      | _ => 0
      end
  | _ => 0
  end.

(** Modelled from the spec: [json_array_get] is absent ("returns the Value
    at i without transferring ownership; fails (absent) if i ≥ count(a) or
    a invalid"). *)
Definition json_array_get (m : gmap loc json_t) (json : EDKII_JSON_VALUE)
    (index : nat) : EDKII_JSON_VALUE :=
  match json with
  | Some (JCell l) =>
      match m !! l with
      | Some (Cell _ (VArray items)) => items !! index
      | _ => None
      end
  | _ => None
  end.

(** Modelled from the spec: [json_array_append] is absent ("adds v at index
    count(a), retains v; fails if a is not an array or the underlying
    allocation fails").  An absent [value] is refused.  0 is success, -1
    failure.  Every append puts one request to the allocator; an array
    that grows its storage in larger steps asks less often. *)
Definition json_array_append (st : heap) (json value : EDKII_JSON_VALUE)
  : Z * heap :=
  match json, value with
  | Some (JCell l), Some v =>
      match cells st !! l with
      | Some (Cell rc (VArray items)) =>
          let (granted, p) := draw (pool st) in
          if granted
          then (0%Z,
                Heap (json_incref
                        (<[l := Cell rc (VArray (items ++ [v]))]> (cells st))
                        (Some v)) p (buffers st))
          else ((-1)%Z, Heap (cells st) p (buffers st))
      | _ => ((-1)%Z, st)
      end
  | _, _ => ((-1)%Z, st)
  end.

(** Modelled from the spec: [json_array_remove] is absent ("releases the
    reference held at i, shifts all later elements down by one index,
    decrements count; fails if i out of range"). *)
Definition json_array_remove (st : heap) (json : EDKII_JSON_VALUE)
    (index : nat) : outcome (Z * heap) :=
  match json with
  | Some (JCell l) =>
      match cells st !! l with
      | Some (Cell _ (VArray items)) =>
          match items !! index with
          | None => Done ((-1)%Z, st)
          | Some x =>
              m1 ←! json_decref (cells st) (Some x);
              match m1 !! l with
              | Some (Cell rc1 (VArray items1)) =>
                  Done (0%Z,
                        Heap (<[l := Cell rc1 (VArray (delete index items1))]> m1)
                             (pool st) (buffers st))
              | _ => Undefined
              end
          end
      | _ => Done ((-1)%Z, st)
      end
  | _ => Done ((-1)%Z, st)
  end.

(** ** Objects *)

(** Position and binding of a key. *)
Definition find_key (k : list Z) (entries : list (list Z * json_ref))
  : option (nat * (list Z * json_ref)) :=
  list_find (λ e, e.1 = k) entries.

(** Modelled from the spec: [json_object_size] is absent ("count of
    distinct keys; 0 if invalid"). *)
Definition json_object_size (m : gmap loc json_t) (json : EDKII_JSON_VALUE)
  : nat :=
  match json with
  | Some (JCell l) =>
      match m !! l with
      | Some (Cell _ (VObject entries)) => length entries
      | _ => 0
      end
  | _ => 0
  end.

(** Modelled from the spec: [json_object_get] is absent ("returns the Value
    for key without transferring ownership; absent if key not present or o
    invalid"). *)
Definition json_object_get (m : gmap loc json_t) (json : EDKII_JSON_VALUE)
    (key : CHAR8_ptr) : EDKII_JSON_VALUE :=
  match json, key with
  | Some (JCell l), Some kmem =>
      match m !! l with
      | Some (Cell _ (VObject entries)) =>
          match find_key (cstr kmem) entries with
          | Some (_, (_, v)) => Some v
          | None => None
          end
      | _ => None
      end
  | _, _ => None
  end.

(** Modelled from the spec: [json_object_set] is absent ("if key exists,
    releases the old bound value's reference, then binds key to v and
    retains v; if key does not exist, inserts a new binding and retains v.
    Fails if o invalid or underlying storage operation fails; on failure
    the object is left unchanged").  An absent [key] or [value] is refused.
    0 is success, -1 failure.  The steps come in the order of the spec, the
    release before the retain: a new value that is live only as a part of
    the old one does not outlive the release. *)
Definition json_object_set (st : heap) (json : EDKII_JSON_VALUE)
    (key : CHAR8_ptr) (value : EDKII_JSON_VALUE) : outcome (Z * heap) :=
  match json, key, value with
  | Some (JCell l), Some kmem, Some v =>
      match cells st !! l with
      | Some (Cell rc (VObject entries)) =>
          let k := cstr kmem in
          let (granted, p) := draw (pool st) in
          if granted
          then
            match find_key k entries with
            | Some (i, (_, old)) =>
                m1 ←! json_decref (cells st) (Some old);
                match m1 !! l with
                | Some (Cell rc1 (VObject entries1)) =>
                    Done (0%Z,
                          Heap (json_incref
                                  (<[l := Cell rc1
                                            (VObject (<[i := (k, v)]> entries1))]> m1)
                                  (Some v)) p (buffers st))
                | _ => Undefined
                end
            | None =>
                Done (0%Z,
                      Heap (json_incref
                              (<[l := Cell rc (VObject (entries ++ [(k, v)]))]>
                                 (cells st))
                              (Some v)) p (buffers st))
            end
          else Done ((-1)%Z, Heap (cells st) p (buffers st))
      | _ => Done ((-1)%Z, st)
      end
  | _, _, _ => Done ((-1)%Z, st)
  end.

(** Modelled from the spec: the iteration macro [json_object_foreach] is
    absent ("every current key appears exactly once"); it visits the
    bindings of an object in order, and nothing for any other value. *)
Definition json_object_iter (m : gmap loc json_t) (json : EDKII_JSON_VALUE)
  : list (list Z * json_ref) :=
  match json with
  | Some (JCell l) =>
      match m !! l with
      | Some (Cell _ (VObject entries)) => entries
      | _ => []
      end
  | _ => []
  end.

(** ** The public functions of BaseJsonLib.c *)

(** A computation that may call the external text codec.  [Dumps json flags
    k] is a call [json_dumps (json, flags)] whose answer is passed to [k];
    [Ret a] returns without any call. *)
Inductive codec_prog (A : Type) : Type :=
| Ret (a : A)
| Dumps (json : EDKII_JSON_VALUE) (flags : Z) (k : CHAR8_ptr → codec_prog A).
Arguments Ret {A} a.
Arguments Dumps {A} json flags k.

(** Runs a computation against a given codec. *)
Fixpoint run_codec {A} (json_dumps : EDKII_JSON_VALUE → Z → CHAR8_ptr)
    (c : codec_prog A) : A :=
  match c with
  | Ret a => a
  | Dumps json flags k => run_codec json_dumps (k (json_dumps json flags))
  end.

(** Number of codec calls made by a run. *)
Fixpoint codec_calls {A} (json_dumps : EDKII_JSON_VALUE → Z → CHAR8_ptr)
    (c : codec_prog A) : nat :=
  match c with
  | Ret _ => 0
  | Dumps json flags k => S (codec_calls json_dumps (k (json_dumps json flags)))
  end.

Definition JsonValueIsArray (st : heap) (Json : EDKII_JSON_VALUE) : bool :=
  json_is_array (cells st) Json.

Definition JsonValueIsObject (st : heap) (Json : EDKII_JSON_VALUE) : bool :=
  json_is_object (cells st) Json.

Definition JsonValueIsString (st : heap) (Json : EDKII_JSON_VALUE) : bool :=
  json_is_string (cells st) Json.

Definition JsonValueIsNumber (st : heap) (Json : EDKII_JSON_VALUE) : bool :=
  json_is_integer (cells st) Json.

Definition JsonValueIsBoolean (st : heap) (Json : EDKII_JSON_VALUE) : bool :=
  json_is_boolean (cells st) Json.

Definition JsonValueIsNull (st : heap) (Json : EDKII_JSON_VALUE) : bool :=
  json_is_null (cells st) Json.

Definition JsonToText (st : heap) (Json : EDKII_JSON_VALUE)
  : codec_prog CHAR8_ptr :=
  if negb (JsonValueIsArray st Json) && negb (JsonValueIsObject st Json)
  then Ret None
  else Dumps Json 0 Ret.

Definition JsonValueInitArray (st : heap) : EDKII_JSON_VALUE * heap :=
  json_array st.

Definition JsonValueInitObject (st : heap) : EDKII_JSON_VALUE * heap :=
  json_object st.

Definition JsonValueInitNumber (st : heap) (Value : Z)
  : EDKII_JSON_VALUE * heap :=
  json_integer st Value.

Definition JsonValueInitBoolean (Value : bool) : EDKII_JSON_VALUE :=
  Some (if Value then JTrue else JFalse).

Definition JsonValueInitNull : EDKII_JSON_VALUE := Some JNull.

Definition JsonValueFree (st : heap) (Json : EDKII_JSON_VALUE)
  : outcome heap :=
  m ←! json_decref (cells st) Json;
  Done (Heap m (pool st) (buffers st)).

Definition JsonValueGetArray (st : heap) (Json : EDKII_JSON_VALUE)
  : EDKII_JSON_ARRAY :=
  if bool_decide (Json = None) || negb (JsonValueIsArray st Json)
  then None
  else Json.

Definition JsonValueGetObject (st : heap) (Json : EDKII_JSON_VALUE)
  : EDKII_JSON_OBJECT :=
  if bool_decide (Json = None) || negb (JsonValueIsObject st Json)
  then None
  else Json.

(** Result of a function that starts with an [ASSERT]. *)
Inductive asserted (A : Type) : Type :=
| AssertFailed
| Returned (a : A).
Arguments AssertFailed {A}.
Arguments Returned {A} a.

(** Modelled from the spec: the macro [ASSERT] is absent ("fail fast /
    assert in debug builds"; a release build compiles it away).  [debug]
    tells which build runs. *)
Definition ASSERT {A} (debug : bool) (condition : bool) (rest : asserted A)
  : asserted A :=
  if debug && negb condition then AssertFailed else rest.

Definition JsonValueGetNumber (debug : bool) (st : heap)
    (Json : EDKII_JSON_VALUE) : asserted Z :=
  ASSERT debug (negb (bool_decide (Json = None)) && JsonValueIsNumber st Json)
    (if bool_decide (Json = None) || negb (JsonValueIsNumber st Json)
     then Returned 0%Z
     else Returned (json_integer_value (cells st) Json)).

Definition JsonValueGetBoolean (debug : bool) (st : heap)
    (Json : EDKII_JSON_VALUE) : asserted bool :=
  ASSERT debug (negb (bool_decide (Json = None)) && JsonValueIsBoolean st Json)
    (if bool_decide (Json = None) || negb (JsonValueIsBoolean st Json)
     then Returned false
     else Returned (json_is_true (cells st) Json)).

Definition JsonObjectSize (st : heap) (JsonObject : EDKII_JSON_OBJECT) : nat :=
  json_object_size (cells st) JsonObject.

(** Modelled from the spec: [AllocateZeroPool] is absent; a granted
    request for [n] pointers yields [n] NULL pointers. *)
Definition AllocateZeroPool (st : heap) (n : nat)
  : option (list CHAR8_ptr) * heap :=
  let (granted, p) := draw (pool st) in
  (if granted then Some (replicate n None) else None, Heap (cells st) p (buffers st)).

(** [KeyCount] is the out-parameter: [None] is a NULL pointer, [Some n] a
    pointer to a variable holding [n].  The second component of the result
    is that variable after the call. *)
Definition JsonObjectGetKeys (st : heap) (JsonObj : EDKII_JSON_OBJECT)
    (KeyCount : option nat)
  : option (list CHAR8_ptr) * option nat * heap :=
  if bool_decide (JsonObj = None) || bool_decide (KeyCount = None)
  then (None, KeyCount, st)
  else
    let Index :=
      foldl (λ Index _, S Index) 0 (json_object_iter (cells st) JsonObj) in
    if Index =? 0
    then (None, KeyCount, st)
    else
      let KeyCount := Some Index in
      let (KeyArray, st') := AllocateZeroPool st Index in
      match KeyArray with
      | None => (None, KeyCount, st')
      | Some KeyArray =>
          let filled :=
            foldl (λ '(KeyArray, Index) '(Key, _),
                     (<[Index := Some Key]> KeyArray, S Index))
                  (KeyArray, 0) (json_object_iter (cells st) JsonObj) in
          (Some filled.1, KeyCount, st')
      end.

Definition JsonObjectGetValue (st : heap) (JsonObj : EDKII_JSON_OBJECT)
    (Key : CHAR8_ptr) : EDKII_JSON_VALUE :=
  json_object_get (cells st) JsonObj Key.

Definition JsonObjectSetValue (st : heap) (JsonObj : EDKII_JSON_OBJECT)
    (Key : CHAR8_ptr) (Json : EDKII_JSON_VALUE)
  : outcome (EFI_STATUS * heap) :=
  r ←! json_object_set st JsonObj Key Json;
  if negb (r.1 =? 0)%Z then Done (EFI_ABORTED, r.2) else Done (EFI_SUCCESS, r.2).

Definition JsonArrayCount (st : heap) (JsonArray : EDKII_JSON_ARRAY) : nat :=
  json_array_size (cells st) JsonArray.

Definition JsonArrayGetValue (st : heap) (JsonArray : EDKII_JSON_ARRAY)
    (Index : nat) : EDKII_JSON_VALUE :=
  json_array_get (cells st) JsonArray Index.

Definition JsonArrayAppendValue (st : heap) (JsonArray : EDKII_JSON_ARRAY)
    (Json : EDKII_JSON_VALUE) : EFI_STATUS * heap :=
  let r := json_array_append st JsonArray Json in
  if negb (r.1 =? 0)%Z then (EFI_ABORTED, r.2) else (EFI_SUCCESS, r.2).

Definition JsonArrayRemoveValue (st : heap) (JsonArray : EDKII_JSON_ARRAY)
    (Index : nat) : outcome (EFI_STATUS * heap) :=
  r ←! json_array_remove st JsonArray Index;
  if negb (r.1 =? 0)%Z then Done (EFI_ABORTED, r.2) else Done (EFI_SUCCESS, r.2).

(** ** Ownership accounting *)

(** Number of references to the cell [l] in a list of references. *)
Definition holds (work : list json_ref) (l : loc) : nat :=
  count_occ json_ref_eq_dec work (JCell l).

(** Number of slots of the store that refer to the cell [l]. *)
Definition refs (m : gmap loc json_t) (l : loc) : nat :=
  store_sum (λ c, holds (children c) l) m.

(** The reference counts of a store account for its references: the count
    of a live cell covers the slots that refer to it, the references [ext]
    held from outside the store (by callers) and the references [work]
    about to be released; nothing refers to a cell that is not live. *)
Definition accounted (ext : loc → nat) (work : list json_ref)
    (m : gmap loc json_t) : Prop :=
  ∀ l, match m !! l with
       | Some c => holds work l + refs m l + ext l ≤ refcount c
       | None => holds work l + refs m l + ext l = 0
       end.

(** Gives up one outside reference to [json]. *)
Definition relinquish (ext : loc → nat) (json : json_ref) : loc → nat :=
  λ l, ext l - holds [json] l.

(** Takes one more outside reference to [json]. *)
Definition take_hold (ext : loc → nat) (json : json_ref) : loc → nat :=
  λ l, ext l + holds [json] l.

(** [reaches m json l]: the cell [l] is the value [json] or lies below it,
    along the references that the live cells of [m] hold. *)
Inductive reaches (m : gmap loc json_t) : json_ref → loc → Prop :=
| reaches_here (l : loc) : reaches m (JCell l) l
| reaches_below (l : loc) (c : json_t) (json : json_ref) (l' : loc) :
    m !! l = Some c → json ∈ children c → reaches m json l' →
    reaches m (JCell l) l'.

(** The cell [l] outlives a release of [json]: a caller holds a reference
    to it, or it is live and no part of [json]. *)
Definition kept (ext : loc → nat) (m : gmap loc json_t) (json : json_ref)
    (l : loc) : Prop :=
  0 < ext l ∨ (is_Some (m !! l) ∧ ¬ reaches m json l).

(** The constructors of values that are not canonical. *)
Inductive constructor : Type :=
| InitNumber (Value : Z)
| InitAsciiString (String : list Z)
| InitUnicodeString (String : list Z)
| InitArray
| InitObject.

Definition construct (UCS2StrToUTF8 : list Z → option (list Z)) (st : heap)
    (c : constructor) : EDKII_JSON_VALUE * heap :=
  match c with
  | InitNumber Value => JsonValueInitNumber st Value
  | InitAsciiString String => JsonValueInitAsciiString st (Some String)
  | InitUnicodeString String =>
      JsonValueInitUnicodeString UCS2StrToUTF8 st (Some String)
  | InitArray => JsonValueInitArray st
  | InitObject => JsonValueInitObject st
  end.

(** The kind of the value a constructor makes. *)
Definition kind_of (c : constructor) : json_type :=
  match c with
  | InitNumber _ => JSON_INTEGER
  | InitAsciiString _ => JSON_STRING
  | InitUnicodeString _ => JSON_STRING
  | InitArray => JSON_ARRAY
  | InitObject => JSON_OBJECT
  end.

(** The pool buffers that a constructor obtains and does not free. *)
Definition buffers_of (UCS2StrToUTF8 : list Z → option (list Z))
    (c : constructor) : list (list Z) :=
  match c with
  | InitUnicodeString String =>
      match UCS2StrToUTF8 String with
      | Some Utf8Str => [Utf8Str]
      | None => []
      end
  | _ => []
  end.

(** Reference count of a value, if it is live. *)
Definition refcount_of (st : heap) (json : json_ref) : option nat :=
  match json with
  | JCell l => refcount <$> cells st !! l
  | _ => None
  end.

(** A finite check of [accounted], for stores given explicitly: every
    reference in [work] and in the store is to a live cell, every count
    covers its references, and only live cells are held from outside. *)
Definition live_ref (m : gmap loc json_t) (json : json_ref) : bool :=
  match json with
  | JCell l => bool_decide (is_Some (m !! l))
  | _ => true
  end.

Definition held (ext : gmap loc nat) : loc → nat :=
  λ l, default 0 (ext !! l).

Definition accounted_check (ext : gmap loc nat) (work : list json_ref)
    (m : gmap loc json_t) : bool :=
  forallb (live_ref m) work
  && forallb (λ lc, forallb (live_ref m) (children lc.2)
                    && bool_decide (holds work lc.1 + refs m lc.1 + held ext lc.1
                                    ≤ refcount lc.2))
       (map_to_list m)
  && forallb (λ ln, bool_decide (is_Some (m !! ln.1))) (map_to_list ext).

(** ** Example stores *)

(** The array [[10, 20, 30]], held by its creator alone. *)
Definition store_array_10_20_30 : heap :=
  Heap (<[1%positive := Cell 1 (VArray [JCell 2; JCell 3; JCell 4])]>
          (<[2%positive := Cell 1 (VInteger 10)]>
             (<[3%positive := Cell 1 (VInteger 20)]>
                {[4%positive := Cell 1 (VInteger 30)]})))
       [true] [].

(** The object [{"a": 1}] and the string ["x"], each held by its creator;
    the integer is held by the object alone. *)
Definition store_object_a_1 : heap :=
  Heap (<[1%positive := Cell 1 (VObject [([0x61%Z], JCell 2)])]>
          (<[2%positive := Cell 1 (VInteger 1)]>
             {[3%positive := Cell 1 (VString [0x78%Z])]}))
       [true] [].

(** The array [[10, 20, 30]] as the only element of an outer array; the
    creator holds the outer array alone. *)
Definition store_nested_array : heap :=
  Heap (<[5%positive := Cell 1 (VArray [JCell 1])]>
          (cells store_array_10_20_30))
       [true] [].


(** An empty array held by its creator. *)
Definition store_empty_array : heap :=
  Heap {[1%positive := Cell 1 (VArray [])]} [true; true] [].

(** * Properties *)

(** ** Bytes and C strings *)

Lemma high_bit_clear (c : Z) :
  (0 ≤ c < 0x100)%Z → (Z.land c 0x80 =? 0x00)%Z = bool_decide (c < 0x80)%Z.
Proof.
  intros Hc.
  assert (Hbit : Z.land c 0x80 = if Z.testbit c 7 then 0x80%Z else 0%Z).
  { apply Z.bits_inj'. intros n Hn. rewrite Z.land_spec.
    change 0x80%Z with (2 ^ 7)%Z. rewrite Z.pow2_bits_eqb by lia.
    destruct (Z.eqb_spec 7 n) as [<-|Hne].
    - rewrite andb_true_r. destruct (Z.testbit c 7) eqn:E; [|done].
      by rewrite Z.pow2_bits_true.
    - rewrite andb_false_r. destruct (Z.testbit c 7); [|by rewrite Z.bits_0].
      rewrite Z.pow2_bits_false; [done|lia]. }
  rewrite Hbit. case_bool_decide as Hlt.
  - assert (Z.testbit c 7 = false) as ->; [|done].
    apply Z.testbit_false; [lia|]. change (2 ^ 7)%Z with 128%Z.
    rewrite Z.div_small; [done|lia].
  - assert (Z.testbit c 7 = true) as ->; [|done].
    apply Z.testbit_true; [lia|]. change (2 ^ 7)%Z with 128%Z.
    assert (c `div` 128 = 1)%Z as ->; [|done].
    symmetry. apply (Z.div_unique c 128 1 (c - 128)); lia.
Qed.

Lemma cstr_id (s : list Z) : Forall (λ c, c ≠ 0%Z) s → cstr s = s.
Proof.
  induction 1 as [|c s Hc _ IH]; simpl; [done|].
  destruct (Z.eqb_spec c 0); [done|]. by rewrite IH.
Qed.

Lemma cstr_no_nul (mem : list Z) : Forall (λ c, c ≠ 0%Z) (cstr mem).
Proof.
  induction mem as [|c mem IH]; simpl; [constructor|].
  destruct (Z.eqb_spec c 0); constructor; done.
Qed.

(** The loop accepts exactly the strings whose bytes before the terminator
    are all below [0x80]. *)
Lemma ascii_loop_spec (mem : list Z) :
  Forall (λ c, 0 ≤ c < 0x100)%Z mem →
  ascii_loop mem = bool_decide (Forall (λ c, c < 0x80)%Z (cstr mem)).
Proof.
  induction 1 as [|c mem Hc _ IH]; cbn [ascii_loop cstr].
  - symmetry. by apply bool_decide_eq_true_2.
  - destruct (Z.eqb_spec c 0) as [->|Hne].
    { symmetry. by apply bool_decide_eq_true_2. }
    rewrite high_bit_clear by done.
    destruct (decide (c < 0x80)%Z) as [Hlt|Hge].
    + rewrite (bool_decide_eq_true_2 _ Hlt). cbn [negb].
      rewrite IH. apply bool_decide_ext. split.
      * by constructor.
      * by inversion 1.
    + rewrite (bool_decide_eq_false_2 _ Hge). cbn [negb].
      symmetry. apply bool_decide_eq_false_2. by inversion 1.
Qed.

Lemma ascii_loop_accepts (mem : list Z) :
  Forall (λ c, 0 ≤ c < 0x80)%Z mem → ascii_loop mem = true.
Proof.
  intros H. rewrite ascii_loop_spec.
  - apply bool_decide_eq_true.
    induction H as [|c mem Hc _ IH]; simpl; [constructor|].
    destruct (Z.eqb_spec c 0); constructor; [lia|done].
  - eapply Forall_impl; [exact H|]. simpl. lia.
Qed.

Lemma ascii_loop_rejects (mem : list Z) (c : Z) :
  c ∈ cstr mem → (0x80 ≤ c < 0x100)%Z → ascii_loop mem = false.
Proof.
  induction mem as [|b mem IH]; simpl.
  - by intros ?%elem_of_nil.
  - destruct (Z.eqb_spec b 0) as [->|Hne].
    { by intros ?%elem_of_nil. }
    intros [->|Hin]%elem_of_cons Hc.
    + rewrite high_bit_clear by lia.
      rewrite bool_decide_eq_false_2; [done|lia].
    + rewrite (IH Hin Hc). by destruct (negb _).
Qed.

(** ** Strings *)

Lemma json_new_granted (st : heap) (b : payload) (p : list bool) :
  pool st = true :: p →
  json_new st b =
    (Some (JCell (fresh (dom (cells st)))),
     Heap (<[fresh (dom (cells st)) := Cell 1 b]> (cells st)) p (buffers st)).
Proof. intros Hp. unfold json_new. by rewrite Hp. Qed.

Lemma json_new_refused (st : heap) (b : payload) :
  (draw (pool st)).1 = false →
  json_new st b = (None, Heap (cells st) (draw (pool st)).2 (buffers st)).
Proof. unfold json_new. destruct (draw (pool st)) as [[] p]; by intros. Qed.

Lemma fresh_cell (m : gmap loc json_t) : m !! fresh (dom m) = None.
Proof. apply not_elem_of_dom, is_fresh. Qed.

(** C1: a string of 7-bit ASCII bytes, given to [JsonValueInitAsciiString]
    when the allocator grants the request, yields a string value from
    which [JsonValueGetAsciiString] reads the same bytes back. *)
Theorem ascii_string_round_trip (st : heap) (s : list Z) (p : list bool) :
  Forall (λ c, 0 < c < 0x80)%Z s →
  pool st = true :: p →
  ∃ v st',
    JsonValueInitAsciiString st (Some s) = (Some v, st') ∧
    JsonValueGetAsciiString st' (Some v) = Some s.
Proof.
  intros Hs Hp.
  assert (Hloop : ascii_loop s = true).
  { apply ascii_loop_accepts. eapply Forall_impl; [exact Hs|]. simpl. lia. }
  assert (Hcstr : cstr s = s).
  { apply cstr_id. eapply Forall_impl; [exact Hs|]. simpl. lia. }
  eexists _, _. split.
  - unfold JsonValueInitAsciiString, json_string. rewrite Hloop.
    by apply json_new_granted.
  - unfold JsonValueGetAsciiString, json_string_value. simpl.
    rewrite lookup_insert_eq, Hcstr, Hloop. done.
Qed.

Lemma ascii_string_round_trip_witness :
  ∃ v st',
    JsonValueInitAsciiString (Heap ∅ [true] []) (Some [0x68; 0x69]%Z)
      = (Some v, st') ∧
    JsonValueGetAsciiString st' (Some v) = Some [0x68; 0x69]%Z.
Proof.
  apply (ascii_string_round_trip (Heap ∅ [true] []) [0x68; 0x69]%Z []).
  - repeat constructor; lia.
  - reflexivity.
Defined.

(** When the allocator refuses the request the constructor returns NULL
    and no cell is added. *)
Lemma init_ascii_string_refused (st : heap) (String : CHAR8_ptr) :
  (draw (pool st)).1 = false →
  ∃ st', JsonValueInitAsciiString st String = (None, st') ∧
         cells st' = cells st.
Proof.
  intros Hp. destruct String as [mem|]; simpl; [|by eexists].
  destruct (ascii_loop mem); [|by eexists].
  rewrite (json_new_refused _ _ Hp). by eexists.
Qed.

(** C2: [JsonValueInitAsciiString] returns NULL, and leaves the store as
    it was, when its argument is NULL and when a byte before the
    terminator is [0x80] or above. *)
Theorem init_ascii_string_rejects (st : heap) (String : CHAR8_ptr) :
  (String = None ∨
   ∃ mem c, String = Some mem ∧ c ∈ cstr mem ∧ (0x80 ≤ c < 0x100)%Z) →
  JsonValueInitAsciiString st String = (None, st).
Proof.
  intros [->|(mem & c & -> & Hin & Hc)]; simpl; [done|].
  by rewrite (ascii_loop_rejects mem c Hin Hc).
Qed.

Lemma init_ascii_string_rejects_witness :
  JsonValueInitAsciiString (Heap ∅ [true] []) None = (None, Heap ∅ [true] []) ∧
  JsonValueInitAsciiString (Heap ∅ [true] []) (Some [0x68; 0xC3; 0xA9]%Z)
    = (None, Heap ∅ [true] []).
Proof.
  split.
  - apply (init_ascii_string_rejects (Heap ∅ [true] []) None). by left.
  - apply (init_ascii_string_rejects (Heap ∅ [true] []) (Some [0x68; 0xC3; 0xA9]%Z)).
    right. exists [0x68; 0xC3; 0xA9]%Z, 0xC3%Z.
    split; [reflexivity|]. split; [|lia].
    simpl. apply elem_of_cons. right. apply elem_of_cons. by left.
Defined.

(** What [JsonValueGetAsciiString] returns for a string value. *)
Lemma JsonValueGetAsciiString_string (st : heap) (l : loc) (rc : nat)
    (s : list Z) :
  cells st !! l = Some (Cell rc (VString s)) →
  Forall (λ c, 0 < c < 0x100)%Z s →
  JsonValueGetAsciiString st (Some (JCell l))
  = if bool_decide (Forall (λ c, c < 0x80)%Z s) then Some s else None.
Proof.
  intros Hl Hs. unfold JsonValueGetAsciiString, json_string_value.
  rewrite Hl, ascii_loop_spec, cstr_id; [done| |].
  - eapply Forall_impl; [exact Hs|]. simpl. lia.
  - eapply Forall_impl; [exact Hs|]. simpl. lia.
Qed.

(** C3: for a string value, whatever constructor stored its bytes,
    [JsonValueGetAsciiString] returns NULL exactly when a stored byte is
    [0x80] or above, and returns the stored bytes exactly when all of them
    are below [0x80]. *)
Theorem get_ascii_string_by_content (st : heap) (l : loc) (rc : nat)
    (s : list Z) :
  cells st !! l = Some (Cell rc (VString s)) →
  Forall (λ c, 0 < c < 0x100)%Z s →
  (JsonValueGetAsciiString st (Some (JCell l)) = None
   ↔ Exists (λ c, 0x80 ≤ c)%Z s) ∧
  (JsonValueGetAsciiString st (Some (JCell l)) = Some s
   ↔ Forall (λ c, c < 0x80)%Z s).
Proof.
  intros Hl Hs. rewrite (JsonValueGetAsciiString_string st l rc s Hl Hs).
  assert (Hcompl : Exists (λ c, 0x80 ≤ c)%Z s ↔ ¬ Forall (λ c, c < 0x80)%Z s).
  { split.
    - intros Hex. apply Exists_not_Forall.
      eapply Exists_impl; [exact Hex|]. simpl. lia.
    - intros Hnot. apply not_Forall_Exists in Hnot; [|apply _].
      eapply Exists_impl; [exact Hnot|]. simpl. lia. }
  rewrite Hcompl. case_bool_decide; split; split; done.
Qed.

Lemma get_ascii_string_by_content_witness :
  cells (Heap {[ 1%positive := Cell 1 (VString [0xC3; 0xA9]%Z) ]} [] [])
    !! 1%positive = Some (Cell 1 (VString [0xC3; 0xA9]%Z)) ∧
  JsonValueGetAsciiString
    (Heap {[ 1%positive := Cell 1 (VString [0xC3; 0xA9]%Z) ]} [] [])
    (Some (JCell 1)) = None.
Proof.
  split; [reflexivity|].
  refine (proj2 (proj1 (get_ascii_string_by_content
                   (Heap {[ 1%positive := Cell 1 (VString [0xC3; 0xA9]%Z) ]} [] [])
                   1%positive 1 [0xC3; 0xA9]%Z _ _)) _).
  - reflexivity.
  - repeat constructor; lia.
  - apply Exists_cons_hd. lia.
Defined.

(** A value made by [JsonValueInitUnicodeString] whose transcoded bytes
    are not all ASCII is a string that the ASCII getter refuses. *)
Lemma unicode_string_not_ascii (UCS2StrToUTF8 : list Z → option (list Z))
    (st : heap) (wide Utf8Str : list Z) (p : list bool) :
  UCS2StrToUTF8 wide = Some Utf8Str →
  Forall (λ c, 0 < c < 0x100)%Z Utf8Str →
  Exists (λ c, 0x80 ≤ c)%Z Utf8Str →
  pool st = true :: p →
  ∃ v st',
    JsonValueInitUnicodeString UCS2StrToUTF8 st (Some wide) = (Some v, st') ∧
    JsonValueIsString st' (Some v) = true ∧
    JsonValueGetAsciiString st' (Some v) = None.
Proof.
  intros Hw Hs Hex Hp. eexists _, _. split; [|split].
  - unfold JsonValueInitUnicodeString, json_string. rewrite Hw.
    by apply json_new_granted.
  - unfold JsonValueIsString, json_is_string, json_is, json_typeof.
    cbn [cells]. by rewrite lookup_insert_eq.
  - rewrite (JsonValueGetAsciiString_string _ _ 1 Utf8Str);
      [|cbn [cells]; rewrite lookup_insert_eq, cstr_id; [done|]|done].
    + rewrite bool_decide_eq_false_2; [done|].
      intros Hall. apply Exists_exists in Hex as (c & Hin & Hc).
      rewrite Forall_forall in Hall. specialize (Hall c Hin). lia.
    + eapply Forall_impl; [exact Hs|]. simpl. lia.
Qed.

(** ** Serialization *)

Lemma JsonToText_text_needs_container (st : heap) (Json : EDKII_JSON_VALUE)
    (json_dumps : EDKII_JSON_VALUE → Z → CHAR8_ptr) (text : list Z) :
  run_codec json_dumps (JsonToText st Json) = Some text →
  json_typeof (cells st) Json = Some JSON_ARRAY ∨
  json_typeof (cells st) Json = Some JSON_OBJECT.
Proof.
  unfold JsonToText, JsonValueIsArray, JsonValueIsObject, json_is_array,
    json_is_object, json_is.
  do 2 case_bool_decide; simpl; auto. done.
Qed.

Lemma JsonToText_container (st : heap) (Json : EDKII_JSON_VALUE) :
  json_typeof (cells st) Json = Some JSON_ARRAY ∨
  json_typeof (cells st) Json = Some JSON_OBJECT →
  JsonToText st Json = Dumps Json 0 Ret.
Proof.
  unfold JsonToText, JsonValueIsArray, JsonValueIsObject, json_is_array,
    json_is_object, json_is.
  intros [H|H]; rewrite H; by do 2 case_bool_decide.
Qed.

(** C4: for a root that is neither an array nor an object (a NULL handle
    included), [JsonToText] returns NULL at once: it is the computation
    that returns without calling the codec, whatever the codec is. *)
Theorem JsonToText_rejects_non_container (st : heap) (Json : EDKII_JSON_VALUE)
    (json_dumps : EDKII_JSON_VALUE → Z → CHAR8_ptr) :
  json_typeof (cells st) Json ≠ Some JSON_ARRAY →
  json_typeof (cells st) Json ≠ Some JSON_OBJECT →
  JsonToText st Json = Ret None ∧
  codec_calls json_dumps (JsonToText st Json) = 0 ∧
  run_codec json_dumps (JsonToText st Json) = None.
Proof.
  intros Harr Hobj.
  assert (JsonToText st Json = Ret None) as ->; [|done].
  unfold JsonToText, JsonValueIsArray, JsonValueIsObject, json_is_array,
    json_is_object, json_is.
  by rewrite !bool_decide_eq_false_2.
Qed.

Lemma JsonToText_rejects_non_container_witness :
  JsonToText (Heap {[ 1%positive := Cell 1 (VInteger 42) ]} [] [])
             (Some (JCell 1)) = Ret None ∧
  JsonToText (Heap ∅ [] []) None = Ret None.
Proof.
  split.
  - apply (JsonToText_rejects_non_container
             (Heap {[ 1%positive := Cell 1 (VInteger 42) ]} [] [])
             (Some (JCell 1)) (λ _ _, Some [0x5B; 0x5D]%Z)); vm_compute; congruence.
  - apply (JsonToText_rejects_non_container (Heap ∅ [] []) None
             (λ _ _, Some [0x5B; 0x5D]%Z)); vm_compute; congruence.
Defined.

(** ** Scalar getters *)

(** C8: on a handle that is NULL or not of the matching kind, the getters
    stop at their assertion in a debug build and return the default (0,
    FALSE) in a release build; on a matching handle they return the stored
    integer or boolean. *)
Theorem scalar_getters (debug : bool) (st : heap) (Json : EDKII_JSON_VALUE) :
  (json_typeof (cells st) Json ≠ Some JSON_INTEGER →
   JsonValueGetNumber debug st Json
     = if debug then AssertFailed else Returned 0%Z) ∧
  (∀ l rc n,
     Json = Some (JCell l) → cells st !! l = Some (Cell rc (VInteger n)) →
     JsonValueGetNumber debug st Json = Returned n) ∧
  (json_typeof (cells st) Json ≠ Some JSON_TRUE →
   json_typeof (cells st) Json ≠ Some JSON_FALSE →
   JsonValueGetBoolean debug st Json
     = if debug then AssertFailed else Returned false) ∧
  (∀ b, Json = JsonValueInitBoolean b →
        JsonValueGetBoolean debug st Json = Returned b).
Proof.
  split; [|split; [|split]].
  - intros Hkind. unfold JsonValueGetNumber, ASSERT, JsonValueIsNumber,
      json_is_integer, json_is.
    rewrite (bool_decide_eq_false_2 _ Hkind), andb_false_r, orb_true_r.
    by destruct debug.
  - intros l rc n -> Hl. unfold JsonValueGetNumber, ASSERT, JsonValueIsNumber,
      json_is_integer, json_is, json_typeof, json_integer_value.
    rewrite Hl. by destruct debug.
  - intros Ht Hf. unfold JsonValueGetBoolean, ASSERT, JsonValueIsBoolean,
      json_is_boolean, json_is_true, json_is_false, json_is.
    rewrite (bool_decide_eq_false_2 _ Ht), (bool_decide_eq_false_2 _ Hf).
    cbn [orb negb]. rewrite andb_false_r, orb_true_r. by destruct debug.
  - intros b ->. by destruct b, debug.
Qed.

Lemma scalar_getters_witness :
  JsonValueGetNumber true (Heap ∅ [] []) None = AssertFailed ∧
  JsonValueGetNumber false (Heap ∅ [] []) (Some JTrue) = Returned 0%Z ∧
  JsonValueGetNumber false (Heap {[ 1%positive := Cell 1 (VInteger (-7)) ]} [] [])
    (Some (JCell 1)) = Returned (-7)%Z ∧
  JsonValueGetBoolean false (Heap {[ 1%positive := Cell 1 (VInteger (-7)) ]} [] [])
    (Some (JCell 1)) = Returned false ∧
  JsonValueGetBoolean true (Heap ∅ [] []) (Some JTrue) = Returned true.
Proof.
  split; [|split; [|split; [|split]]].
  - apply (proj1 (scalar_getters true (Heap ∅ [] []) None)). vm_compute. congruence.
  - apply (proj1 (scalar_getters false (Heap ∅ [] []) (Some JTrue))).
    vm_compute. congruence.
  - apply (proj1 (proj2 (scalar_getters false
             (Heap {[ 1%positive := Cell 1 (VInteger (-7)) ]} [] [])
             (Some (JCell 1)))) 1%positive 1 (-7)%Z); reflexivity.
  - apply (proj1 (proj2 (proj2 (scalar_getters false
             (Heap {[ 1%positive := Cell 1 (VInteger (-7)) ]} [] [])
             (Some (JCell 1)))))); vm_compute; congruence.
  - apply (proj2 (proj2 (proj2 (scalar_getters true (Heap ∅ [] []) (Some JTrue))))
             true). reflexivity.
Defined.

(** ** Failure of a set *)

(** C5: when [JsonObjectSetValue] reports [EFI_ABORTED], no cell of the
    store has changed; in particular the object has the same size, the same
    bindings and the same keys as before. *)
Theorem object_set_failure_unchanged (st st' : heap)
    (JsonObj : EDKII_JSON_OBJECT) (Key : CHAR8_ptr) (Json : EDKII_JSON_VALUE) :
  JsonObjectSetValue st JsonObj Key Json = Done (EFI_ABORTED, st') →
  cells st' = cells st ∧
  JsonObjectSize st' JsonObj = JsonObjectSize st JsonObj ∧
  (∀ k, JsonObjectGetValue st' JsonObj k = JsonObjectGetValue st JsonObj k) ∧
  json_object_iter (cells st') JsonObj = json_object_iter (cells st) JsonObj.
Proof.
  intros Hset.
  assert (Hcells : cells st' = cells st).
  { unfold JsonObjectSetValue, json_object_set in Hset.
    destruct JsonObj as [[| | |l]|]; try by injection Hset as <-.
    destruct Key as [kmem|]; [|by injection Hset as <-].
    destruct Json as [v|]; [|by injection Hset as <-].
    destruct (cells st !! l) as [[rc [n|s|items|entries]]|];
      try by injection Hset as <-.
    destruct (draw (pool st)) as [[] p]; [|by injection Hset as <-].
    destruct (find_key (cstr kmem) entries) as [[i [k0 old]]|]; [|done].
    destruct (json_decref (cells st) (Some old)) as [m1| |]; [|done..].
    cbn [bind_outcome] in Hset.
    by destruct (m1 !! l) as [[rc1 [n|s|items|entries1]]|]. }
  unfold JsonObjectSize, JsonObjectGetValue. by rewrite Hcells.
Qed.

Lemma object_set_failure_unchanged_witness :
  JsonObjectSetValue
    (Heap {[ 1%positive := Cell 1 (VObject [([0x61%Z], JTrue)]) ]} [false] [])
    (Some (JCell 1)) (Some [0x62%Z]) (Some JNull)
  = Done (EFI_ABORTED,
          Heap {[ 1%positive := Cell 1 (VObject [([0x61%Z], JTrue)]) ]} [] []) ∧
  JsonObjectSize
    (Heap {[ 1%positive := Cell 1 (VObject [([0x61%Z], JTrue)]) ]} [] [])
    (Some (JCell 1))
  = JsonObjectSize
      (Heap {[ 1%positive := Cell 1 (VObject [([0x61%Z], JTrue)]) ]} [false] [])
      (Some (JCell 1)).
Proof.
  split; [reflexivity|].
  apply (object_set_failure_unchanged
           (Heap {[ 1%positive := Cell 1 (VObject [([0x61%Z], JTrue)]) ]} [false] [])
           (Heap {[ 1%positive := Cell 1 (VObject [([0x61%Z], JTrue)]) ]} [] [])
           (Some (JCell 1)) (Some [0x62%Z]) (Some JNull)).
  reflexivity.
Defined.

(** ** Enumerating keys *)

Lemma count_loop {A} (l : list A) (n : nat) :
  foldl (λ Index _, S Index) n l = n + length l.
Proof.
  revert n. induction l as [|x l IH]; intros n; simpl; [lia|].
  rewrite IH. lia.
Qed.

Lemma json_object_iter_length (m : gmap loc json_t) (json : EDKII_JSON_VALUE) :
  length (json_object_iter m json) = json_object_size m json.
Proof.
  unfold json_object_iter, json_object_size.
  destruct json as [[| | |l]|]; try done.
  by destruct (m !! l) as [[rc [n|s|items|entries]]|].
Qed.

(** The second loop writes the keys, in iteration order, over the zeroed
    array. *)
Lemma fill_loop (entries : list (list Z * json_ref)) :
  ∀ done_ : list CHAR8_ptr,
    foldl (λ '(KeyArray, Index) '(Key, _),
             (<[Index := Some Key]> KeyArray, S Index))
          (done_ ++ replicate (length entries) None, length done_) entries
    = (done_ ++ ((λ e, Some e.1) <$> entries), length done_ + length entries).
Proof.
  induction entries as [|[k v] entries IH]; intros done_; simpl.
  - by rewrite Nat.add_0_r.
  - rewrite insert_app_r_alt, Nat.sub_diag by done. simpl.
    rewrite (cons_middle (Some k) done_ (replicate _ _)), app_assoc.
    replace (S (length done_)) with (length (done_ ++ [Some k]))
      by (rewrite length_app; simpl; lia).
    rewrite IH, length_app, <-app_assoc. simpl. f_equal. lia.
Qed.

(** C10: [JsonObjectGetKeys] returns NULL and leaves the variable behind
    [KeyCount] alone when the object handle is NULL, when [KeyCount] is
    NULL and when no key is counted; once a key has been counted the
    variable receives the number of keys, whether the allocation of the
    key array then succeeds (the keys are returned in iteration order) or
    fails (NULL is returned). *)
Theorem get_keys_key_count (st : heap) (JsonObj : EDKII_JSON_OBJECT)
    (KeyCount : option nat) :
  (JsonObj = None ∨ KeyCount = None ∨ JsonObjectSize st JsonObj = 0 →
   JsonObjectGetKeys st JsonObj KeyCount = (None, KeyCount, st)) ∧
  (JsonObj ≠ None → KeyCount ≠ None → 0 < JsonObjectSize st JsonObj →
   JsonObjectGetKeys st JsonObj KeyCount
   = (if (draw (pool st)).1
      then Some ((λ e, Some e.1) <$> json_object_iter (cells st) JsonObj)
      else None,
      Some (JsonObjectSize st JsonObj),
      Heap (cells st) (draw (pool st)).2 (buffers st))).
Proof.
  unfold JsonObjectGetKeys, JsonObjectSize.
  rewrite count_loop, json_object_iter_length. cbn [plus]. split.
  - intros [-> | [-> | Hz]]; [done| |].
    + by rewrite orb_true_r.
    + rewrite Hz. by destruct (_ || _).
  - intros Hobj Hcount Hsize.
    rewrite (bool_decide_eq_false_2 _ Hobj), (bool_decide_eq_false_2 _ Hcount).
    cbn [orb]. destruct (Nat.eqb_spec (json_object_size (cells st) JsonObj) 0);
      [lia|].
    unfold AllocateZeroPool. destruct (draw (pool st)) as [[] p]; [|done].
    cbn [fst snd]. rewrite <-json_object_iter_length.
    pose proof (fill_loop (json_object_iter (cells st) JsonObj) []) as Hfill.
    cbn [app length plus] in Hfill. by rewrite Hfill.
Qed.

Lemma get_keys_key_count_witness :
  JsonObjectGetKeys (Heap ∅ [true] []) None (Some 7) = (None, Some 7, Heap ∅ [true] []) ∧
  JsonObjectGetKeys
    (Heap {[ 1%positive := Cell 1 (VObject [([0x61%Z], JTrue); ([0x62%Z], JNull)]) ]}
          [false] [])
    (Some (JCell 1)) (Some 7)
  = (None, Some 2,
     Heap {[ 1%positive := Cell 1 (VObject [([0x61%Z], JTrue); ([0x62%Z], JNull)]) ]}
          [] []).
Proof.
  split.
  - apply (proj1 (get_keys_key_count (Heap ∅ [true] []) None (Some 7))). by left.
  - refine (eq_trans (proj2 (get_keys_key_count
      (Heap {[ 1%positive := Cell 1 (VObject [([0x61%Z], JTrue); ([0x62%Z], JNull)]) ]}
            [false] [])
      (Some (JCell 1)) (Some 7)) _ _ _) _);
      [done|done|vm_compute; lia|reflexivity].
Defined.

(** ** Sums over the store *)

Lemma store_sum_empty (f : json_t → nat) : store_sum f ∅ = 0.
Proof. apply map_fold_empty. Qed.

Lemma store_sum_insert (f : json_t → nat) (m : gmap loc json_t) (l : loc)
    (c : json_t) :
  m !! l = None → store_sum f (<[l := c]> m) = f c + store_sum f m.
Proof.
  intros Hl. unfold store_sum.
  rewrite map_fold_insert_L; [done| |done]. intros. lia.
Qed.

Lemma store_sum_delete (f : json_t → nat) (m : gmap loc json_t) (l : loc)
    (c : json_t) :
  m !! l = Some c → store_sum f m = f c + store_sum f (delete l m).
Proof.
  intros Hl. unfold store_sum.
  rewrite (map_fold_delete_L _ _ l c m); [done| |done]. intros. lia.
Qed.

Lemma store_sum_update (f : json_t → nat) (m : gmap loc json_t) (l : loc)
    (c c' : json_t) :
  m !! l = Some c →
  store_sum f (<[l := c']> m) + f c = store_sum f m + f c'.
Proof.
  intros Hl. rewrite <-insert_delete_eq.
  rewrite store_sum_insert by apply lookup_delete_eq.
  rewrite (store_sum_delete f m l c Hl). lia.
Qed.

Lemma store_sum_same (f : json_t → nat) (m : gmap loc json_t) (l : loc)
    (c c' : json_t) :
  m !! l = Some c → f c' = f c → store_sum f (<[l := c']> m) = store_sum f m.
Proof.
  intros Hl Hf. pose proof (store_sum_update f m l c c' Hl). lia.
Qed.

Lemma slots_delete (m : gmap loc json_t) (l : loc) (c : json_t) :
  m !! l = Some c → slots m = length (children c) + slots (delete l m).
Proof. apply (store_sum_delete (λ c, length (children c))). Qed.

Lemma slots_decrement (m : gmap loc json_t) (l : loc) (c : json_t) :
  m !! l = Some c →
  slots (<[l := Cell (refcount c - 1) (body c)]> m) = slots m.
Proof.
  intros Hl. by apply (store_sum_same (λ c, length (children c)) m l c).
Qed.

(** ** The release procedure *)

Lemma release_all_nil (n : nat) (m : gmap loc json_t) :
  release_all n [] m = Done m.
Proof. by destruct n. Qed.

(** With a sufficient budget the result does not depend on the budget. *)
Lemma release_all_enough (n : nat) :
  ∀ (work : list json_ref) (m : gmap loc json_t),
    length work + slots m ≤ n →
    release_all n work m = release m work.
Proof.
  unfold release.
  induction n as [|n IH]; intros work m Hn.
  - destruct work; [by rewrite !release_all_nil|simpl in *; lia].
  - destruct work as [|json rest]; [by rewrite !release_all_nil|].
    cbn [length plus release_all].
    destruct json as [| | |l];
      try (rewrite IH by (simpl in *; lia); f_equal; lia).
    destruct (m !! l) as [c|] eqn:Hl; [|done].
    case_decide as Hrc.
    + pose proof (slots_delete m l c Hl) as Hs.
      rewrite IH by (rewrite length_app; simpl in *; lia).
      f_equal. rewrite length_app. lia.
    + pose proof (slots_decrement m l c Hl) as Hs.
      rewrite IH by (simpl in *; lia).
      f_equal. lia.
Qed.

Lemma release_nil (m : gmap loc json_t) : release m [] = Done m.
Proof. apply release_all_nil. Qed.

Lemma release_static (m : gmap loc json_t) (json : json_ref)
    (rest : list json_ref) :
  (∀ l, json ≠ JCell l) → release m (json :: rest) = release m rest.
Proof.
  intros Hst. unfold release at 1. cbn [length plus release_all].
  destruct json; try (apply release_all_enough; lia). by destruct (Hst l).
Qed.

Lemma release_dangling (m : gmap loc json_t) (l : loc) (rest : list json_ref) :
  m !! l = None → release m (JCell l :: rest) = Undefined.
Proof. intros Hl. unfold release. cbn [length plus release_all]. by rewrite Hl. Qed.

Lemma release_last (m : gmap loc json_t) (l : loc) (c : json_t)
    (rest : list json_ref) :
  m !! l = Some c → refcount c - 1 = 0 →
  release m (JCell l :: rest) = release (delete l m) (children c ++ rest).
Proof.
  intros Hl Hrc. unfold release at 1. cbn [length plus release_all].
  rewrite Hl, decide_True by done. apply release_all_enough.
  rewrite length_app, (slots_delete m l c Hl). lia.
Qed.

Lemma release_shared (m : gmap loc json_t) (l : loc) (c : json_t)
    (rest : list json_ref) :
  m !! l = Some c → refcount c - 1 ≠ 0 →
  release m (JCell l :: rest) =
    release (<[l := Cell (refcount c - 1) (body c)]> m) rest.
Proof.
  intros Hl Hrc. unfold release at 1. cbn [length plus release_all].
  rewrite Hl, decide_False by done. apply release_all_enough.
  rewrite (slots_decrement m l c Hl). lia.
Qed.

(** Induction along the steps of [release]. *)
Lemma release_ind (P : gmap loc json_t → list json_ref → Prop) :
  (∀ m, P m []) →
  (∀ m json rest, (∀ l, json ≠ JCell l) → P m rest → P m (json :: rest)) →
  (∀ m l rest, m !! l = None → P m (JCell l :: rest)) →
  (∀ m l c rest,
     m !! l = Some c → refcount c - 1 = 0 →
     P (delete l m) (children c ++ rest) → P m (JCell l :: rest)) →
  (∀ m l c rest,
     m !! l = Some c → refcount c - 1 ≠ 0 →
     P (<[l := Cell (refcount c - 1) (body c)]> m) rest →
     P m (JCell l :: rest)) →
  ∀ m work, P m work.
Proof.
  intros Hnil Hstatic Hdangling Hlast Hshared m work.
  remember (length work + slots m) as n eqn:Hn.
  assert (Hle : length work + slots m ≤ n) by lia. clear Hn.
  revert work m Hle. induction n as [|n IH]; intros work m Hle.
  - destruct work; simpl in *; [apply Hnil|lia].
  - destruct work as [|json rest]; [apply Hnil|].
    destruct json as [| | |l];
      try (apply Hstatic; [done|apply IH; simpl in *; lia]).
    destruct (m !! l) as [c|] eqn:Hl; [|by apply Hdangling].
    destruct (decide (refcount c - 1 = 0)) as [Hrc|Hrc].
    + apply (Hlast m l c rest Hl Hrc), IH.
      pose proof (slots_delete m l c Hl) as Hs.
      rewrite length_app. simpl in *. lia.
    + apply (Hshared m l c rest Hl Hrc), IH.
      pose proof (slots_decrement m l c Hl) as Hs.
      simpl in *. lia.
Qed.

(** The release procedure always finishes within its budget. *)
Lemma release_terminates (m : gmap loc json_t) (work : list json_ref) :
  release m work ≠ Exhausted.
Proof.
  revert m work. apply release_ind.
  - intros m. by rewrite release_nil.
  - intros m json rest Hst IH. by rewrite release_static.
  - intros m l rest Hl. by rewrite release_dangling.
  - intros m l c rest Hl Hrc IH. by rewrite (release_last m l c).
  - intros m l c rest Hl Hrc IH. by rewrite (release_shared m l c).
Qed.

(** Releasing never brings a cell into the store. *)
Lemma release_no_new_cell (m : gmap loc json_t) (work : list json_ref) :
  ∀ m' l, release m work = Done m' → m !! l = None → m' !! l = None.
Proof.
  revert m work.
  apply (release_ind (λ m work, ∀ m' l,
           release m work = Done m' → m !! l = None → m' !! l = None)).
  - intros m m' l. rewrite release_nil. by intros [= <-].
  - intros m json rest Hst IH m' l. rewrite release_static by done. apply IH.
  - intros m l rest Hl m' l'. by rewrite release_dangling.
  - intros m l c rest Hl Hrc IH m' l'. rewrite (release_last m l c) by done.
    intros Hrel Hl'. apply (IH m' l' Hrel).
    destruct (decide (l = l')) as [->|Hne];
      [apply lookup_delete_eq|by rewrite lookup_delete_ne].
  - intros m l c rest Hl Hrc IH m' l'. rewrite (release_shared m l c) by done.
    intros Hrel Hl'. apply (IH m' l' Hrel).
    rewrite lookup_insert_ne; [done|]. intros ->. congruence.
Qed.


(** ** Parts of a value *)

Lemma reaches_mono (m m' : gmap loc json_t) (json : json_ref) (l : loc) :
  (∀ l0 c, m !! l0 = Some c →
           ∃ c', m' !! l0 = Some c' ∧ children c ⊆ children c') →
  reaches m json l → reaches m' json l.
Proof.
  intros Hsub Hr. induction Hr as [l|l c json l' Hl Hin _ IH].
  - constructor.
  - destruct (Hsub l c Hl) as (c' & Hl' & Hch).
    by apply (reaches_below m' l c' json l' Hl' (Hch _ Hin)).
Qed.

(** Nothing lies below a value that holds no reference. *)
Lemma reaches_leaf (m : gmap loc json_t) (l l' : loc) (c : json_t) :
  m !! l = Some c → children c = [] → reaches m (JCell l) l' → l' = l.
Proof.
  intros Hl Hch Hr. inversion Hr as [|? c0 json ? Hl0 Hin]; subst; [done|].
  rewrite Hl in Hl0. injection Hl0 as <-. rewrite Hch in Hin.
  by apply elem_of_nil in Hin.
Qed.

(** The release procedure leaves alone every cell that is no part of the
    values it releases. *)
Lemma release_unreached (l : loc) (m : gmap loc json_t)
    (work : list json_ref) :
  ∀ m', release m work = Done m' →
        (∀ json, json ∈ work → ¬ reaches m json l) →
        m' !! l = m !! l.
Proof.
  revert m work.
  apply (release_ind (λ m work, ∀ m',
           release m work = Done m' →
           (∀ json, json ∈ work → ¬ reaches m json l) →
           m' !! l = m !! l)).
  - intros m m'. rewrite release_nil. by intros [= <-].
  - intros m json rest Hst IH m'. rewrite release_static by done.
    intros Hrel Hnr. apply (IH m' Hrel). intros json' Hin.
    apply Hnr. by apply elem_of_cons; right.
  - intros m l0 rest Hl0 m'. by rewrite release_dangling.
  - intros m l0 c0 rest Hl0 Hrc IH m'.
    rewrite (release_last m l0 c0) by done. intros Hrel Hnr.
    assert (Hne : l0 ≠ l).
    { intros ->. apply (Hnr (JCell l)); [by apply elem_of_cons; left|].
      constructor. }
    rewrite <-(lookup_delete_ne m l0 l Hne). apply (IH m' Hrel).
    intros json Hin Hr.
    assert (Hr' : reaches m json l).
    { apply (reaches_mono (delete l0 m)); [|done].
      intros l1 c1 [_ Hc1]%lookup_delete_Some. eauto. }
    apply elem_of_app in Hin as [Hin|Hin].
    + apply (Hnr (JCell l0)); [by apply elem_of_cons; left|].
      by apply (reaches_below m l0 c0 json l).
    + apply (Hnr json); [by apply elem_of_cons; right|done].
  - intros m l0 c0 rest Hl0 Hrc IH m'.
    rewrite (release_shared m l0 c0) by done. intros Hrel Hnr.
    assert (Hne : l0 ≠ l).
    { intros ->. apply (Hnr (JCell l)); [by apply elem_of_cons; left|].
      constructor. }
    rewrite <-(lookup_insert_ne m l0 l (Cell (refcount c0 - 1) (body c0)) Hne).
    apply (IH m' Hrel).
    intros json Hin Hr. apply (Hnr json); [by apply elem_of_cons; right|].
    apply (reaches_mono (<[l0 := Cell (refcount c0 - 1) (body c0)]> m));
      [|done].
    intros l1 c1 [[<- <-]|[_ Hc1]]%lookup_insert_Some; eauto.
Qed.

(** ** Counting references *)

Lemma holds_app (w1 w2 : list json_ref) (l : loc) :
  holds (w1 ++ w2) l = holds w1 l + holds w2 l.
Proof. apply count_occ_app. Qed.

Lemma holds_cons (json : json_ref) (rest : list json_ref) (l : loc) :
  holds (json :: rest) l = holds [json] l + holds rest l.
Proof. apply (holds_app [json] rest). Qed.

Lemma holds_cell (l' l : loc) :
  holds [JCell l'] l = if decide (l' = l) then 1 else 0.
Proof.
  unfold holds. cbn [count_occ]. destruct (json_ref_eq_dec (JCell l') (JCell l)) as [[= ->]|Hne].
  - by rewrite decide_True.
  - rewrite decide_False; [done|]. by intros ->.
Qed.

Lemma holds_static (json : json_ref) (l : loc) :
  (∀ l', json ≠ JCell l') → holds [json] l = 0.
Proof.
  intros Hst. unfold holds. cbn [count_occ].
  destruct (json_ref_eq_dec json (JCell l)) as [->|Hne]; [|done].
  by destruct (Hst l).
Qed.

Lemma holds_lookup (items : list json_ref) (i : nat) (l : loc) :
  items !! i = Some (JCell l) → 0 < holds items l.
Proof.
  intros Hi. apply count_occ_In, list_elem_of_In, list_elem_of_lookup. eauto.
Qed.

Lemma holds_delete (items : list json_ref) (i : nat) (x : json_ref) (l : loc) :
  items !! i = Some x →
  holds items l = holds [x] l + holds (delete i items) l.
Proof.
  intros Hi.
  replace (holds items l)
    with (holds (take i items ++ x :: drop (S i) items) l)
    by (by rewrite take_drop_middle).
  rewrite delete_take_drop, !holds_app, (holds_cons x (drop (S i) items)). lia.
Qed.

Lemma holds_insert (items : list json_ref) (i : nat) (x y : json_ref) (l : loc) :
  items !! i = Some x →
  holds (<[i := y]> items) l + holds [x] l = holds items l + holds [y] l.
Proof.
  intros Hi.
  replace (holds items l)
    with (holds (take i items ++ x :: drop (S i) items) l)
    by (by rewrite take_drop_middle).
  rewrite insert_take_drop by (by eapply lookup_lt_Some).
  rewrite !holds_app, (holds_cons x (drop (S i) items)),
    (holds_cons y (drop (S i) items)). lia.
Qed.

Lemma refs_delete (m : gmap loc json_t) (l0 l : loc) (c : json_t) :
  m !! l0 = Some c → refs m l = holds (children c) l + refs (delete l0 m) l.
Proof. intros Hl. apply (store_sum_delete (λ c, holds (children c) l) m l0 c Hl). Qed.

Lemma refs_update (m : gmap loc json_t) (l0 l : loc) (c c' : json_t) :
  m !! l0 = Some c →
  refs (<[l0 := c']> m) l + holds (children c) l
    = refs m l + holds (children c') l.
Proof. intros Hl. apply (store_sum_update (λ c, holds (children c) l) m l0 c c' Hl). Qed.

Lemma refs_same (m : gmap loc json_t) (l0 l : loc) (c c' : json_t) :
  m !! l0 = Some c → children c' = children c →
  refs (<[l0 := c']> m) l = refs m l.
Proof.
  intros Hl Hch. pose proof (refs_update m l0 l c c' Hl) as H.
  rewrite Hch in H. lia.
Qed.

Lemma refs_insert (m : gmap loc json_t) (l0 l : loc) (c : json_t) :
  m !! l0 = None → refs (<[l0 := c]> m) l = holds (children c) l + refs m l.
Proof. intros Hl. apply (store_sum_insert (λ c, holds (children c) l) m l0 c Hl). Qed.

(** ** Safety of the release procedure *)

(** In a store whose counts account for its references, releasing the
    pending references finishes, never touches released storage, keeps the
    accounting, and keeps every value that is referenced from outside. *)
Lemma release_accounted (m : gmap loc json_t) (work : list json_ref) :
  ∀ ext, accounted ext work m →
    ∃ m', release m work = Done m' ∧ accounted ext [] m' ∧
          ∀ l c, m !! l = Some c → 0 < ext l →
                 ∃ c', m' !! l = Some c' ∧ body c' = body c.
Proof.
  revert m work.
  apply (release_ind (λ m work, ∀ ext, accounted ext work m →
    ∃ m', release m work = Done m' ∧ accounted ext [] m' ∧
          ∀ l c, m !! l = Some c → 0 < ext l →
                 ∃ c', m' !! l = Some c' ∧ body c' = body c)).
  - intros m ext Hacc. exists m. rewrite release_nil. eauto.
  - intros m json rest Hst IH ext Hacc. rewrite release_static by done.
    apply IH. intros l. specialize (Hacc l).
    rewrite holds_cons, (holds_static json l Hst) in Hacc. done.
  - intros m l rest Hl ext Hacc. specialize (Hacc l).
    rewrite Hl, holds_cons, holds_cell, decide_True in Hacc by done. lia.
  - intros m l c rest Hl Hrc IH ext Hacc.
    rewrite (release_last m l c) by done.
    pose proof (Hacc l) as Hat. rewrite Hl, holds_cons, holds_cell, decide_True in Hat by done.
    destruct (IH ext) as (m' & Hrel & Hacc' & Hkeep).
    { intros l'. specialize (Hacc l').
      rewrite holds_app. rewrite (refs_delete m l l' c Hl) in Hacc.
      rewrite holds_cons, holds_cell in Hacc.
      destruct (decide (l = l')) as [<-|Hne].
      - rewrite lookup_delete_eq. rewrite Hl in Hacc. lia.
      - rewrite lookup_delete_ne by done. destruct (m !! l'); lia. }
    exists m'. split; [done|]. split; [done|].
    intros l' c' Hl' Hext. apply Hkeep; [|done].
    rewrite lookup_delete_ne; [done|]. intros ->. lia.
  - intros m l c rest Hl Hrc IH ext Hacc.
    rewrite (release_shared m l c) by done.
    destruct (IH ext) as (m' & Hrel & Hacc' & Hkeep).
    { intros l'. specialize (Hacc l').
      rewrite (refs_same m l l' c (Cell (refcount c - 1) (body c)) Hl eq_refl).
      rewrite holds_cons, holds_cell in Hacc.
      destruct (decide (l = l')) as [<-|Hne].
      - rewrite lookup_insert_eq. rewrite Hl in Hacc. simpl. lia.
      - rewrite lookup_insert_ne by done. destruct (m !! l'); lia. }
    exists m'. split; [done|]. split; [done|].
    intros l' c' Hl' Hext. destruct (decide (l = l')) as [<-|Hne].
    + destruct (Hkeep l (Cell (refcount c - 1) (body c))) as (c'' & ? & ?);
        [apply lookup_insert_eq|done|].
      exists c''. split; [done|]. by simplify_eq.
    + apply Hkeep; [|done]. by rewrite lookup_insert_ne.
Qed.

Lemma store_sum_zero (f : json_t → nat) (m : gmap loc json_t) :
  (∀ l c, m !! l = Some c → f c = 0) → store_sum f m = 0.
Proof.
  induction m as [|l c m Hl IH] using map_ind; intros Hf.
  - apply store_sum_empty.
  - rewrite store_sum_insert by done.
    rewrite (Hf l c) by apply lookup_insert_eq.
    rewrite IH; [done|]. intros l' c' Hl'. apply (Hf l').
    rewrite lookup_insert_ne; [done|]. intros ->. congruence.
Qed.

Lemma holds_not_live (m : gmap loc json_t) (work : list json_ref) (l : loc) :
  forallb (live_ref m) work = true → m !! l = None → holds work l = 0.
Proof.
  intros Hlive Hl. apply count_occ_not_In. intros Hin.
  rewrite forallb_forall in Hlive. specialize (Hlive _ Hin). simpl in Hlive.
  apply bool_decide_eq_true in Hlive as [c Hc]. congruence.
Qed.

Lemma accounted_check_sound (ext : gmap loc nat) (work : list json_ref)
    (m : gmap loc json_t) :
  accounted_check ext work m = true → accounted (held ext) work m.
Proof.
  unfold accounted_check. rewrite !andb_true_iff, !forallb_forall.
  intros [[Hwork Hcells] Hext] l.
  destruct (m !! l) as [c|] eqn:Hl.
  - specialize (Hcells (l, c)). rewrite andb_true_iff in Hcells.
    destruct Hcells as [_ Hle].
    { apply list_elem_of_In, elem_of_map_to_list, Hl. }
    by apply bool_decide_eq_true in Hle.
  - rewrite (holds_not_live m work l); [|by apply forallb_forall|done].
    unfold refs. rewrite store_sum_zero.
    + unfold held. destruct (ext !! l) as [n|] eqn:He; [|done].
      specialize (Hext (l, n)). simpl in Hext.
      assert (bool_decide (is_Some (m !! l)) = true) as Hsome.
      { apply Hext, list_elem_of_In, elem_of_map_to_list, He. }
      apply bool_decide_eq_true in Hsome as [c Hc]. congruence.
    + intros l' c' Hl'. apply (holds_not_live m); [|done].
      specialize (Hcells (l', c')). rewrite andb_true_iff in Hcells.
      apply Hcells, list_elem_of_In, elem_of_map_to_list, Hl'.
Qed.

(** ** One cell seen with two bodies *)

(** Two runs of the release procedure on stores that differ in the body of
    one cell [l] agree, as long as [l] is not destroyed. *)
Lemma release_rebody (l : loc) (b b' : payload) (m : gmap loc json_t)
    (work : list json_ref) :
  ∀ rc m1',
    m !! l = Some (Cell rc b) →
    release (<[l := Cell rc b']> m) work = Done m1' →
    is_Some (m1' !! l) →
    ∃ rc1, m1' !! l = Some (Cell rc1 b') ∧
           release m work = Done (<[l := Cell rc1 b]> m1').
Proof.
  revert m work.
  apply (release_ind (λ m work, ∀ rc m1',
    m !! l = Some (Cell rc b) →
    release (<[l := Cell rc b']> m) work = Done m1' →
    is_Some (m1' !! l) →
    ∃ rc1, m1' !! l = Some (Cell rc1 b') ∧
           release m work = Done (<[l := Cell rc1 b]> m1'))).
  - intros m rc m1' Hl. rewrite !release_nil. intros [= <-] _.
    exists rc. rewrite lookup_insert_eq, insert_insert_eq, insert_id; done.
  - intros m json rest Hst IH rc m1' Hl. rewrite !release_static by done.
    by apply IH.
  - intros m l0 rest Hl0 rc m1' Hl.
    rewrite release_dangling; [done|].
    rewrite lookup_insert_ne; [done|]. intros ->. congruence.
  - intros m l0 c rest Hl0 Hrc IH rc m1' Hl.
    destruct (decide (l0 = l)) as [->|Hne].
    + simplify_eq. rewrite (release_last _ l (Cell rc b'));
        [|apply lookup_insert_eq|done].
      intros Hrel [c' Hc'].
      rewrite (release_no_new_cell _ _ _ l Hrel) in Hc'; [done|].
      apply lookup_delete_eq.
    + rewrite (release_last _ l0 c), (release_last m l0 c);
        [|done|done|by rewrite lookup_insert_ne|done].
      rewrite delete_insert_ne by done. apply IH.
      by rewrite lookup_delete_ne.
  - intros m l0 c rest Hl0 Hrc IH rc m1' Hl.
    destruct (decide (l0 = l)) as [->|Hne].
    + simplify_eq. rewrite (release_shared _ l (Cell rc b'));
        [|apply lookup_insert_eq|done].
      rewrite (release_shared m l (Cell rc b)) by done. simpl.
      rewrite insert_insert_eq. intros Hrel Hsome.
      apply (IH (rc - 1)); [apply lookup_insert_eq| |done].
      by rewrite insert_insert_eq.
    + rewrite (release_shared _ l0 c), (release_shared m l0 c);
        [|done|done|by rewrite lookup_insert_ne|done].
      rewrite insert_insert_ne by done. apply IH.
      by rewrite lookup_insert_ne.
Qed.

(** ** Effect of one release *)

Lemma json_decref_static (m : gmap loc json_t) (json : json_ref) :
  (∀ l, json ≠ JCell l) → json_decref m (Some json) = Done m.
Proof. intros Hst. simpl. by rewrite release_static, release_nil. Qed.

Lemma json_decref_shared (m : gmap loc json_t) (l : loc) (c : json_t) :
  m !! l = Some c → 1 < refcount c →
  json_decref m (Some (JCell l)) =
    Done (<[l := Cell (refcount c - 1) (body c)]> m).
Proof.
  intros Hl Hrc. simpl. rewrite (release_shared m l c), release_nil; [done..|lia].
Qed.

Lemma json_decref_last (m m' : gmap loc json_t) (l : loc) (c : json_t) :
  m !! l = Some c → refcount c ≤ 1 →
  json_decref m (Some (JCell l)) = Done m' → m' !! l = None.
Proof.
  intros Hl Hrc. simpl. rewrite (release_last m l c); [|done|lia].
  intros Hrel. apply (release_no_new_cell _ _ _ l Hrel), lookup_delete_eq.
Qed.

Lemma json_decref_leaf (m : gmap loc json_t) (l : loc) (c : json_t) :
  m !! l = Some c → refcount c ≤ 1 → children c = [] →
  json_decref m (Some (JCell l)) = Done (delete l m).
Proof.
  intros Hl Hrc Hch. simpl. rewrite (release_last m l c); [|done|lia].
  by rewrite Hch, release_nil.
Qed.

(** ** Arrays *)

(** Vacating a slot of an array turns the reference it held into a pending
    release. *)
Lemma accounted_vacate (ext : loc → nat) (m : gmap loc json_t) (a : loc)
    (rc : nat) (items : list json_ref) (i : nat) (x : json_ref) :
  m !! a = Some (Cell rc (VArray items)) →
  items !! i = Some x →
  accounted ext [] m →
  accounted ext [x] (<[a := Cell rc (VArray (delete i items))]> m).
Proof.
  intros Ha Hx Hacc l. specialize (Hacc l).
  pose proof (refs_update m a l _ (Cell rc (VArray (delete i items))) Ha) as Hr.
  pose proof (holds_delete items i x l Hx) as Hd.
  cbn [children body] in Hr.
  destruct (decide (a = l)) as [<-|Hne].
  - rewrite lookup_insert_eq. rewrite Ha in Hacc. simpl in *. lia.
  - rewrite lookup_insert_ne by done. destruct (m !! l); simpl in *; lia.
Qed.

(** The vacated store is part of the store it comes from. *)
Lemma reaches_vacated (m : gmap loc json_t) (a : loc) (rc : nat)
    (items : list json_ref) (i : nat) (json : json_ref) (l : loc) :
  m !! a = Some (Cell rc (VArray items)) →
  reaches (<[a := Cell rc (VArray (delete i items))]> m) json l →
  reaches m json l.
Proof.
  intros Ha. apply reaches_mono.
  intros l1 c1 [[<- <-]|[_ Hc1]]%lookup_insert_Some; [|eauto].
  eexists. split; [exact Ha|]. apply sublist_subseteq, sublist_delete.
Qed.

(** C7: for every array and every index within it, the removal either
    runs into released storage (which needs a store whose counts are
    wrong, or an array that is part of its own element) or succeeds, and
    then it has released the reference that the slot held, closed the gap
    by moving every later element one index down, and lowered the count by
    one; the released element has lost one count, or is destroyed when
    that count was its last.  The removal does succeed in every store
    whose counts account for its references, provided the array outlives
    the release of the element: a caller holds it, or it is no part of the
    element.  With an index out of range the call reports [EFI_ABORTED]
    and the store is as before. *)
Theorem array_remove_value (st : heap) (a : loc) (rc : nat)
    (items : list json_ref) (Index : nat) :
  cells st !! a = Some (Cell rc (VArray items)) →
  (∀ x, items !! Index = Some x →
     (JsonArrayRemoveValue st (Some (JCell a)) Index = Undefined ∨
      ∃ st',
        JsonArrayRemoveValue st (Some (JCell a)) Index
          = Done (EFI_SUCCESS, st') ∧
        json_decref (<[a := Cell rc (VArray (delete Index items))]> (cells st))
                    (Some x) = Done (cells st') ∧
        JsonArrayCount st' (Some (JCell a))
          = JsonArrayCount st (Some (JCell a)) - 1 ∧
        (∀ j, JsonArrayGetValue st' (Some (JCell a)) j
              = if decide (j < Index)
                then JsonArrayGetValue st (Some (JCell a)) j
                else JsonArrayGetValue st (Some (JCell a)) (S j)) ∧
        (∀ lx cx, x = JCell lx → lx ≠ a → cells st !! lx = Some cx →
                  cells st' !! lx
                  = if decide (refcount cx ≤ 1) then None
                    else Some (Cell (refcount cx - 1) (body cx)))) ∧
     (∀ ext, accounted ext [] (cells st) → kept ext (cells st) x a →
             ∃ st',
               JsonArrayRemoveValue st (Some (JCell a)) Index
                 = Done (EFI_SUCCESS, st') ∧
               accounted ext [] (cells st'))) ∧
  (JsonArrayCount st (Some (JCell a)) ≤ Index →
   JsonArrayRemoveValue st (Some (JCell a)) Index = Done (EFI_ABORTED, st)).
Proof.
  intros Ha. split.
  - intros x Hx.
    set (m0 := <[a := Cell rc (VArray (delete Index items))]> (cells st)).
    assert (Hback : <[a := Cell rc (VArray items)]> m0 = cells st).
    { unfold m0. by rewrite insert_insert_eq, insert_id. }
    split.
    + destruct (release (cells st) [x]) as [m1| |] eqn:Hrel.
      * destruct (m1 !! a) as [c1|] eqn:Ha1.
        -- right.
           destruct (release_rebody a (VArray (delete Index items))
                       (VArray items) m0 [x] rc m1) as (rc1 & Ha1' & Hrel0);
             [apply lookup_insert_eq|by rewrite Hback|by rewrite Ha1; eauto|].
           exists (Heap (<[a := Cell rc1 (VArray (delete Index items))]> m1)
                        (pool st) (buffers st)).
           split; [|split; [|split; [|split]]].
           ++ unfold JsonArrayRemoveValue, json_array_remove. rewrite Ha, Hx.
              cbn [json_decref]. rewrite Hrel. cbn [bind_outcome].
              by rewrite Ha1'.
           ++ done.
           ++ unfold JsonArrayCount, json_array_size. cbn [cells].
              rewrite Ha, lookup_insert_eq. apply length_delete. eauto.
           ++ intros j. unfold JsonArrayGetValue, json_array_get. cbn [cells].
              rewrite Ha, lookup_insert_eq, list_lookup_delete. by case_decide.
           ++ intros lx cx -> Hne Hlx. cbn [cells].
              assert (Hlx' : m0 !! lx = Some cx)
                by (unfold m0; by rewrite lookup_insert_ne).
              case_decide as Hrc.
              ** by apply (json_decref_last _ _ lx cx Hlx' Hrc).
              ** change (json_decref m0 (Some (JCell lx))
                         = Done (<[a := Cell rc1 (VArray (delete Index items))]> m1))
                   in Hrel0.
                 rewrite (json_decref_shared _ lx cx Hlx') in Hrel0 by lia.
                 injection Hrel0 as <-. apply lookup_insert_eq.
        -- left. unfold JsonArrayRemoveValue, json_array_remove.
           rewrite Ha, Hx. cbn [json_decref]. rewrite Hrel. cbn [bind_outcome].
           by rewrite Ha1.
      * left. unfold JsonArrayRemoveValue, json_array_remove.
        rewrite Ha, Hx. cbn [json_decref]. by rewrite Hrel.
      * by apply release_terminates in Hrel.
    + intros ext Hacc Hkept.
      pose proof (accounted_vacate ext _ a rc items Index x Ha Hx Hacc) as Hacc'.
      fold m0 in Hacc'.
      destruct (release_accounted _ _ ext Hacc') as (m1 & Hrel & Hacc1 & Hkeep).
      destruct (release_rebody a (VArray items) (VArray (delete Index items))
                  (cells st) [x] rc m1 Ha Hrel) as (rc1 & Ha1 & Hrel0).
      { destruct Hkept as [Hext|[_ Hnr]].
        - destruct (Hkeep a _ (lookup_insert_eq _ _ _) Hext) as (c' & -> & _).
          eauto.
        - rewrite (release_unreached a m0 [x] m1 Hrel).
          + unfold m0. rewrite lookup_insert_eq. eauto.
          + intros json ->%list_elem_of_singleton Hr.
            by apply Hnr, (reaches_vacated _ a rc items Index). }
      exists (Heap m1 (pool st) (buffers st)). split; [|done].
      unfold JsonArrayRemoveValue, json_array_remove. rewrite Ha, Hx.
      cbn [json_decref]. rewrite Hrel0. cbn [bind_outcome].
      rewrite lookup_insert_eq, insert_insert_eq, (insert_id m1) by done. done.
  - unfold JsonArrayCount, json_array_size. rewrite Ha. intros Hge.
    unfold JsonArrayRemoveValue, json_array_remove. rewrite Ha.
    by rewrite (lookup_ge_None_2 items Index Hge).
Qed.

(** ** Retaining a value *)

Lemma json_incref_lookup_ne (m : gmap loc json_t) (json : json_ref) (l : loc) :
  json ≠ JCell l → json_incref m (Some json) !! l = m !! l.
Proof.
  intros Hne. destruct json as [| | |l']; try done. simpl.
  apply lookup_alter_ne. by intros ->.
Qed.

Lemma json_incref_lookup_eq (m : gmap loc json_t) (l : loc) (c : json_t) :
  m !! l = Some c →
  json_incref m (Some (JCell l)) !! l = Some (Cell (S (refcount c)) (body c)).
Proof. intros Hl. simpl. by rewrite lookup_alter_eq, Hl. Qed.

Lemma refs_incref (m : gmap loc json_t) (json : EDKII_JSON_VALUE) (l : loc) :
  refs (json_incref m json) l = refs m l.
Proof.
  destruct json as [[| | |l']|]; try done. simpl. rewrite alter_alt.
  destruct (m !! l') as [c|] eqn:Hl'; [|done].
  by apply (refs_same m l' l c).
Qed.

Lemma holds_le_1 (json : json_ref) (l : loc) : holds [json] l ≤ 1.
Proof.
  destruct json as [| | |l']; try (rewrite holds_static; [lia|done]).
  rewrite holds_cell. case_decide; lia.
Qed.

Lemma holds_one (json : json_ref) (l : loc) :
  0 < holds [json] l → json = JCell l.
Proof.
  destruct json as [| | |l']; try (rewrite holds_static; [lia|done]).
  rewrite holds_cell. case_decide; [by subst|lia].
Qed.

(** ** Objects *)

Lemma find_key_Some (k : list Z) (entries : list (list Z * json_ref))
    (i : nat) (k0 : list Z) (old : json_ref) :
  find_key k entries = Some (i, (k0, old)) →
  entries !! i = Some (k, old) ∧ k0 = k.
Proof.
  unfold find_key. intros (Hi & Hk & _)%list_find_Some. simpl in Hk.
  by subst.
Qed.


(** Rebinding a key of an object turns the reference its binding held
    into a pending release, and uses up the reference that the new
    binding takes over. *)
Lemma accounted_rebind (ext : loc → nat) (m : gmap loc json_t) (o : loc)
    (rc : nat) (entries : list (list Z * json_ref)) (i : nat) (k : list Z)
    (old v : json_ref) :
  m !! o = Some (Cell rc (VObject entries)) →
  entries !! i = Some (k, old) →
  (∀ l, v = JCell l → 0 < ext l) →
  accounted ext [] m →
  accounted (relinquish ext v) [old]
    (<[o := Cell rc (VObject (<[i := (k, v)]> entries))]> m).
Proof.
  intros Ho Hi Hv Hacc l. specialize (Hacc l).
  pose proof (refs_update m o l _
                (Cell rc (VObject (<[i := (k, v)]> entries))) Ho) as Hr.
  cbn [children body] in Hr. rewrite list_fmap_insert in Hr. cbn [snd] in Hr.
  assert (Hold : entries.*2 !! i = Some old) by by rewrite list_lookup_fmap, Hi.
  pose proof (holds_insert (entries.*2) i old v l Hold) as Hins.
  assert (Hle : holds [v] l ≤ ext l).
  { pose proof (holds_le_1 v l). pose proof (holds_one v l) as Hone.
    destruct (holds [v] l); [lia|]. specialize (Hv l (Hone ltac:(lia))). lia. }
  unfold relinquish.
  destruct (decide (o = l)) as [<-|Hne].
  - rewrite lookup_insert_eq. rewrite Ho in Hacc. simpl in *. lia.
  - rewrite lookup_insert_ne by done. destruct (m !! l); simpl in *; lia.
Qed.

Lemma json_incref_body (m : gmap loc json_t) (json : EDKII_JSON_VALUE)
    (l : loc) :
  body <$> json_incref m json !! l = body <$> m !! l.
Proof.
  destruct json as [[| | |l']|]; try done. simpl. rewrite lookup_alter.
  case_decide; [subst|done]. by destruct (m !! l).
Qed.

Lemma object_view (m : gmap loc json_t) (o : loc)
    (entries : list (list Z * json_ref)) :
  body <$> m !! o = Some (VObject entries) →
  json_object_size m (Some (JCell o)) = length entries ∧
  json_object_iter m (Some (JCell o)) = entries ∧
  ∀ k, json_object_get m (Some (JCell o)) (Some k)
       = (λ e, e.2.2) <$> find_key (cstr k) entries.
Proof.
  unfold json_object_size, json_object_iter, json_object_get.
  destruct (m !! o) as [[rc b]|]; [|done]. intros [= ->].
  split; [done|]. split; [done|]. intros k.
  by destruct (find_key (cstr k) entries) as [[i [k0 v]]|].
Qed.






(** ** Creating, sharing and releasing a value *)

(** Pending releases are carried out in order. *)
Lemma release_app (w2 : list json_ref) (m : gmap loc json_t)
    (w1 : list json_ref) :
  release m (w1 ++ w2) = bind_outcome (release m w1) (λ m', release m' w2).
Proof.
  revert m w1.
  apply (release_ind (λ m w1,
    release m (w1 ++ w2) = bind_outcome (release m w1) (λ m', release m' w2))).
  - intros m. by rewrite release_nil.
  - intros m json rest Hst IH. cbn [app]. by rewrite !release_static.
  - intros m l rest Hl. cbn [app]. by rewrite !release_dangling.
  - intros m l c rest Hl Hrc IH. cbn [app].
    rewrite !(release_last m l c) by done. by rewrite app_assoc.
  - intros m l c rest Hl Hrc IH. cbn [app].
    by rewrite !(release_shared m l c).
Qed.

(** A cell to which nothing refers is left alone by the release
    procedure. *)
Lemma release_frame (lv : loc) (cv : json_t) (m : gmap loc json_t)
    (work : list json_ref) :
  ∀ m', m !! lv = None → holds work lv = 0 → refs m lv = 0 →
        release m work = Done m' →
        release (<[lv := cv]> m) work = Done (<[lv := cv]> m').
Proof.
  revert m work.
  apply (release_ind (λ m work, ∀ m',
    m !! lv = None → holds work lv = 0 → refs m lv = 0 →
    release m work = Done m' →
    release (<[lv := cv]> m) work = Done (<[lv := cv]> m'))).
  - intros m m' _ _ _. rewrite !release_nil. by intros [= <-].
  - intros m json rest Hst IH m' Hlv Hw Hr. rewrite !release_static by done.
    apply IH; [done| |done]. rewrite holds_cons in Hw. lia.
  - intros m l rest Hl m' _ _ _. by rewrite release_dangling.
  - intros m l c rest Hl Hrc IH m' Hlv Hw Hr.
    rewrite holds_cons, holds_cell in Hw.
    destruct (decide (l = lv)) as [->|Hne]; [lia|].
    rewrite (refs_delete m l lv c Hl) in Hr.
    rewrite (release_last m l c), (release_last _ l c);
      [|by rewrite lookup_insert_ne|done..].
    rewrite delete_insert_ne by done. apply IH.
    + by rewrite lookup_delete_ne.
    + rewrite holds_app. lia.
    + lia.
  - intros m l c rest Hl Hrc IH m' Hlv Hw Hr.
    rewrite holds_cons, holds_cell in Hw.
    destruct (decide (l = lv)) as [->|Hne]; [lia|].
    rewrite (release_shared m l c), (release_shared _ l c);
      [|by rewrite lookup_insert_ne|done..].
    rewrite insert_insert_ne by done. apply IH.
    + by rewrite lookup_insert_ne.
    + lia.
    + by rewrite (refs_same m l lv c).
Qed.

(** Handing one outside reference over to the release procedure. *)
Lemma accounted_relinquish (ext : loc → nat) (m : gmap loc json_t) (v : json_ref) :
  accounted ext [] m →
  (∀ l, v = JCell l → 0 < ext l) →
  accounted (relinquish ext v) [v] m.
Proof.
  intros Hacc Hv l. specialize (Hacc l). unfold relinquish.
  assert (Hle : holds [v] l ≤ ext l).
  { pose proof (holds_le_1 v l). pose proof (holds_one v l) as Hone.
    destruct (holds [v] l); [lia|]. specialize (Hv l (Hone ltac:(lia))). lia. }
  destruct (m !! l); simpl in *; lia.
Qed.

(** What a successful constructor leaves in the store. *)
Lemma construct_Some (UCS2StrToUTF8 : list Z → option (list Z))
    (st st1 : heap) (c : constructor) (v : json_ref) :
  construct UCS2StrToUTF8 st c = (Some v, st1) →
  ∃ b, v = JCell (fresh (dom (cells st))) ∧
       cells st1 = <[fresh (dom (cells st)) := Cell 1 b]> (cells st) ∧
       children (Cell 1 b) = [].
Proof.
  assert (Hnew : ∀ bufs b, children (Cell 1 b) = [] →
                      json_new (Heap (cells st) (pool st) bufs) b = (Some v, st1) →
                      ∃ b, v = JCell (fresh (dom (cells st))) ∧
                           cells st1 = <[fresh (dom (cells st)) := Cell 1 b]> (cells st) ∧
                           children (Cell 1 b) = []).
  { intros bufs b Hb. unfold json_new. cbn [cells pool buffers].
    destruct (draw (pool st)) as [[] p'].
    - intros [= <- <-]. by exists b.
    - by intros [= ]. }
  destruct st as [m p bufs]. destruct c as [Value|String|String| |]; simpl.
  - by apply Hnew.
  - destruct (ascii_loop String); [by apply Hnew|by intros [= ]].
  - destruct (UCS2StrToUTF8 String); [by apply Hnew|by intros [= ]].
  - by apply Hnew.
  - by apply Hnew.
Qed.

(** The buffers a constructor leaves behind, whatever it returns. *)
Lemma construct_buffers (UCS2StrToUTF8 : list Z → option (list Z))
    (st : heap) (c : constructor) :
  buffers (construct UCS2StrToUTF8 st c).2
    = buffers_of UCS2StrToUTF8 c ++ buffers st.
Proof.
  assert (Hnew : ∀ st0 b, buffers (json_new st0 b).2 = buffers st0).
  { intros st0 b. unfold json_new. by destruct (draw (pool st0)) as [[] p]. }
  destruct c as [Value|String|String| |]; simpl; try apply Hnew.
  - destruct (ascii_loop String); [apply Hnew|done].
  - destruct (UCS2StrToUTF8 String); [|done]. by rewrite Hnew.
Qed.

(** C9: a value fresh from its constructor has count 1; a successful
    append to an array raises the count to 2; releasing the array, which
    held its last reference, destroys the array and releases every element,
    the value falling back to count 1; releasing the original handle then
    destroys the value.  The cells that remain are those that releasing the
    array alone would have left.  The pool buffers are as before the
    construction for every constructor but [JsonValueInitUnicodeString]:
    after it the buffer of the transcoder is still allocated, so that one
    allocation stays outstanding. *)
Theorem refcount_discipline (UCS2StrToUTF8 : list Z → option (list Z))
    (st st1 st2 : heap) (c : constructor) (v : json_ref) (a : loc)
    (items : list json_ref) (ext : loc → nat) :
  accounted ext [] (cells st) →
  cells st !! a = Some (Cell 1 (VArray items)) →
  0 < ext a →
  construct UCS2StrToUTF8 st c = (Some v, st1) →
  JsonArrayAppendValue st1 (Some (JCell a)) (Some v) = (EFI_SUCCESS, st2) →
  refcount_of st1 v = Some 1 ∧
  refcount_of st2 v = Some 2 ∧
  JsonArrayGetValue st2 (Some (JCell a)) (JsonArrayCount st1 (Some (JCell a)))
    = Some v ∧
  ∃ st3 st4 st_ref,
    JsonValueFree st2 (Some (JCell a)) = Done st3 ∧
    cells st3 !! a = None ∧
    refcount_of st3 v = Some 1 ∧
    JsonValueFree st3 (Some v) = Done st4 ∧
    refcount_of st4 v = None ∧
    JsonValueFree st (Some (JCell a)) = Done st_ref ∧
    cells st4 = cells st_ref ∧
    (items = [] → cells st4 = delete a (cells st)) ∧
    buffers st_ref = buffers st ∧
    buffers st4 = buffers_of UCS2StrToUTF8 c ++ buffers st.
Proof.
  intros Hacc Ha Hext Hc Happ.
  pose proof (construct_buffers UCS2StrToUTF8 st c) as Hbufs.
  rewrite Hc in Hbufs. cbn [snd] in Hbufs.
  destruct (construct_Some _ st st1 c v Hc) as (b & -> & Hst1 & Hleaf).
  set (lv := fresh (dom (cells st))) in *.
  assert (Hlv : cells st !! lv = None) by apply fresh_cell.
  assert (Hne : a ≠ lv) by (intros ->; congruence).
  assert (Ha1 : cells st1 !! a = Some (Cell 1 (VArray items))).
  { by rewrite Hst1, lookup_insert_ne. }
  (* the append *)
  unfold JsonArrayAppendValue, json_array_append in Happ. rewrite Ha1 in Happ.
  destruct (draw (pool st1)) as [[] p2]; [|done]. cbn in Happ.
  injection Happ as <-.
  set (m2 := <[lv := Cell 2 b]>
               (<[a := Cell 1 (VArray (items ++ [JCell lv]))]> (cells st))).
  assert (Hm2 : alter (λ c, Cell (S (refcount c)) (body c)) lv
                  (<[a := Cell 1 (VArray (items ++ [JCell lv]))]> (cells st1))
                = m2).
  { rewrite Hst1, alter_insert_ne, alter_insert_eq by done.
    unfold m2. by rewrite insert_insert_ne. }
  rewrite Hm2.
  (* the reference run: releasing the array in the initial store *)
  pose proof (accounted_relinquish ext (cells st) (JCell a) Hacc) as Hgive.
  destruct (release_accounted _ _ _ (Hgive ltac:(by intros ? [= <-])))
    as (mR & Hrel & _ & _).
  rewrite (release_last _ a _ _ Ha), app_nil_r in Hrel by done.
  cbn [children body] in Hrel.
  assert (HmRa : mR !! a = None).
  { apply (release_no_new_cell _ _ _ a Hrel), lookup_delete_eq. }
  assert (HmRv : mR !! lv = None).
  { apply (release_no_new_cell _ _ _ lv Hrel). by rewrite lookup_delete_ne. }
  (* nothing refers to the fresh cell *)
  pose proof (Hacc lv) as Hat. rewrite Hlv in Hat.
  pose proof (refs_delete (cells st) a lv _ Ha) as Hrd. cbn [children body] in Hrd.
  (* releasing the array after the append *)
  assert (Hfree2 : release m2 [JCell a] = Done (<[lv := Cell 1 b]> mR)).
  { rewrite (release_last m2 a (Cell 1 (VArray (items ++ [JCell lv]))));
      [|unfold m2; by rewrite lookup_insert_ne, lookup_insert_eq|done].
    cbn [children body]. rewrite app_nil_r, release_app.
    assert (delete a m2 = <[lv := Cell 2 b]> (delete a (cells st))) as ->.
    { unfold m2. by rewrite delete_insert_ne, delete_insert_eq. }
    rewrite (release_frame lv (Cell 2 b) _ _ mR); [| |lia|lia|done].
    - cbn [bind_outcome].
      rewrite (release_shared _ lv (Cell 2 b)), release_nil;
        [|apply lookup_insert_eq|done].
      by rewrite insert_insert_eq.
    - by rewrite lookup_delete_ne. }
  split; [|split; [|split]].
  - simpl. fold lv. by rewrite Hst1, lookup_insert_eq.
  - simpl. unfold m2. by rewrite lookup_insert_eq.
  - unfold JsonArrayGetValue, JsonArrayCount, json_array_get, json_array_size.
    cbn [cells]. rewrite Ha1. unfold m2.
    rewrite lookup_insert_ne, lookup_insert_eq by done.
    by rewrite lookup_app_r, Nat.sub_diag.
  - exists (Heap (<[lv := Cell 1 b]> mR) p2 (buffers st1)),
      (Heap mR p2 (buffers st1)), (Heap mR (pool st) (buffers st)).
    split; [|split; [|split; [|split; [|split; [|split; [|split; [|split; [|split]]]]]]]].
    + unfold JsonValueFree. cbn [json_decref cells]. by rewrite Hfree2.
    + cbn [cells]. by rewrite lookup_insert_ne.
    + simpl. by rewrite lookup_insert_eq.
    + unfold JsonValueFree. cbn [cells pool].
      rewrite (json_decref_leaf _ lv (Cell 1 b));
        [|apply lookup_insert_eq|done|done].
      cbn [bind_outcome]. by rewrite delete_insert_id.
    + simpl. by rewrite HmRv.
    + unfold JsonValueFree. cbn [json_decref].
      rewrite (release_last _ a _ _ Ha), app_nil_r by done.
      cbn [children body]. by rewrite Hrel.
    + done.
    + intros ->. rewrite release_nil in Hrel. by injection Hrel as <-.
    + done.
    + done.
Qed.

(** ** The accounting is kept by the library *)

Lemma accounted_empty : accounted (λ _, 0) [] ∅.
Proof.
  intros l. rewrite lookup_empty. unfold refs. by rewrite store_sum_empty.
Qed.

(** A constructor hands its caller the only reference to the new value. *)
Lemma accounted_json_new (ext : loc → nat) (st st' : heap) (b : payload)
    (v : json_ref) :
  accounted ext [] (cells st) →
  children (Cell 1 b) = [] →
  json_new st b = (Some v, st') →
  accounted (take_hold ext v) [] (cells st').
Proof.
  intros Hacc Hleaf. unfold json_new.
  destruct (draw (pool st)) as [[] p]; [|done]. intros [= <- <-].
  cbn [cells]. set (lv := fresh (dom (cells st))).
  assert (Hlv : cells st !! lv = None) by apply fresh_cell.
  intros l. specialize (Hacc l). unfold take_hold.
  rewrite (refs_insert _ lv l _ Hlv), Hleaf, holds_cell.
  destruct (decide (lv = l)) as [<-|Hne].
  - rewrite lookup_insert_eq. rewrite Hlv in Hacc. simpl in *. lia.
  - rewrite lookup_insert_ne by done.
    change (holds [] l) with 0. destruct (cells st !! l); simpl in *; lia.
Qed.

(** Releasing a reference one holds never touches released storage. *)
Lemma JsonValueFree_accounted (ext : loc → nat) (st : heap) (v : json_ref) :
  accounted ext [] (cells st) →
  (∀ l, v = JCell l → 0 < ext l) →
  ∃ st', JsonValueFree st (Some v) = Done st' ∧
         accounted (relinquish ext v) [] (cells st').
Proof.
  intros Hacc Hv.
  destruct (release_accounted _ _ _ (accounted_relinquish ext _ v Hacc Hv))
    as (m' & Hrel & Hacc' & _).
  exists (Heap m' (pool st) (buffers st)). split; [|done].
  unfold JsonValueFree. cbn [json_decref]. by rewrite Hrel.
Qed.

(** An append gives the array a reference of its own to the value. *)
Lemma JsonArrayAppendValue_accounted (ext : loc → nat) (st st' : heap)
    (JsonArray : EDKII_JSON_ARRAY) (v : json_ref) :
  accounted ext [] (cells st) →
  (∀ l, v = JCell l → is_Some (cells st !! l)) →
  JsonArrayAppendValue st JsonArray (Some v) = (EFI_SUCCESS, st') →
  accounted ext [] (cells st').
Proof.
  intros Hacc Hv. unfold JsonArrayAppendValue, json_array_append.
  destruct JsonArray as [[| | |a]|]; try done.
  destruct (cells st !! a) as [[rc [n|s|items|entries]]|] eqn:Ha; try done.
  destruct (draw (pool st)) as [[] p]; [|done]. cbn -[json_incref].
  intros Heq. apply (f_equal snd) in Heq. cbn [snd] in Heq. subst st'.
  cbn [cells]. intros l. specialize (Hacc l). rewrite refs_incref.
  pose proof (refs_update (cells st) a l _
                (Cell rc (VArray (items ++ [v]))) Ha) as Hr.
  cbn [children body] in Hr. rewrite holds_app in Hr.
  destruct (decide (v = JCell l)) as [->|Hne].
  - destruct (Hv l eq_refl) as [c Hc].
    rewrite holds_cell, decide_True in Hr by done.
    rewrite (json_incref_lookup_eq _ l
               (if decide (a = l) then Cell rc (VArray (items ++ [JCell l]))
                else c)).
    + rewrite Hc in Hacc. case_decide; simplify_eq; simpl in *; lia.
    + case_decide as Hal.
      * subst. apply lookup_insert_eq.
      * by rewrite lookup_insert_ne.
  - rewrite json_incref_lookup_ne by done.
    assert (holds [v] l = 0) as Hz.
    { pose proof (holds_one v l) as Hone. destruct (holds [v] l); [done|].
      destruct Hne. apply Hone. lia. }
    destruct (decide (a = l)) as [<-|Hal].
    + rewrite lookup_insert_eq. rewrite Ha in Hacc. simpl in *. lia.
    + rewrite lookup_insert_ne by done.
      destruct (cells st !! l); simpl in *; lia.
Qed.

(** ** The scenarios of the specification *)

Lemma array_remove_value_witness :
  (∃ st',
     JsonArrayRemoveValue store_array_10_20_30 (Some (JCell 1)) 1
       = Done (EFI_SUCCESS, st') ∧
     JsonArrayCount st' (Some (JCell 1)) = 2 ∧
     JsonArrayGetValue st' (Some (JCell 1)) 0 = Some (JCell 2) ∧
     JsonArrayGetValue st' (Some (JCell 1)) 1 = Some (JCell 4) ∧
     cells st' !! 3%positive = None) ∧
  (∃ st',
     JsonArrayRemoveValue store_nested_array (Some (JCell 1)) 1
       = Done (EFI_SUCCESS, st') ∧
     JsonArrayCount st' (Some (JCell 1)) = 2 ∧
     JsonArrayGetValue st' (Some (JCell 1)) 0 = Some (JCell 2) ∧
     JsonArrayGetValue st' (Some (JCell 1)) 1 = Some (JCell 4) ∧
     cells st' !! 3%positive = None) ∧
  JsonArrayRemoveValue store_array_10_20_30 (Some (JCell 1)) 3
    = Done (EFI_ABORTED, store_array_10_20_30).
Proof.
  split; [|split].
  - destruct (proj1 (array_remove_value store_array_10_20_30 1%positive 1
                       [JCell 2; JCell 3; JCell 4] 1 eq_refl)
                    (JCell 3) eq_refl) as [Heff Hdef].
    destruct (Hdef (held {[1%positive := 1]})) as (st' & Hcall & _).
    + apply accounted_check_sound. vm_compute. reflexivity.
    + left. vm_compute. lia.
    + destruct Heff as [Hun|(st2 & Hcall2 & _ & Hcount & Hget & Hfate)];
        rewrite Hcall in *; [discriminate|]. injection Hcall2 as <-.
      exists st'. split; [reflexivity|]. split; [exact Hcount|].
      split; [exact (Hget 0)|]. split; [exact (Hget 1)|].
      exact (Hfate 3%positive (Cell 1 (VInteger 20)) eq_refl
               ltac:(discriminate) eq_refl).
  - destruct (proj1 (array_remove_value store_nested_array 1%positive 1
                       [JCell 2; JCell 3; JCell 4] 1 eq_refl)
                    (JCell 3) eq_refl) as [Heff Hdef].
    destruct (Hdef (held {[5%positive := 1]})) as (st' & Hcall & _).
    + apply accounted_check_sound. vm_compute. reflexivity.
    + right. split; [by eexists|]. intros Hr.
      by apply (reaches_leaf _ 3%positive 1%positive (Cell 1 (VInteger 20)))
        in Hr.
    + destruct Heff as [Hun|(st2 & Hcall2 & _ & Hcount & Hget & Hfate)];
        rewrite Hcall in *; [discriminate|]. injection Hcall2 as <-.
      exists st'. split; [reflexivity|]. split; [exact Hcount|].
      split; [exact (Hget 0)|]. split; [exact (Hget 1)|].
      exact (Hfate 3%positive (Cell 1 (VInteger 20)) eq_refl
               ltac:(discriminate) eq_refl).
  - apply (proj2 (array_remove_value store_array_10_20_30 1%positive 1
                    [JCell 2; JCell 3; JCell 4] 3 eq_refl)).
    vm_compute. lia.
Defined.


Lemma refcount_discipline_witness :
  refcount_of
    (construct (λ _, Some [0x78%Z]) store_empty_array
               (InitUnicodeString [0x78%Z])).2
    (JCell 2) = Some 1 ∧
  refcount_of
    (JsonArrayAppendValue
       (construct (λ _, Some [0x78%Z]) store_empty_array
                  (InitUnicodeString [0x78%Z])).2
       (Some (JCell 1)) (Some (JCell 2))).2
    (JCell 2) = Some 2 ∧
  ∃ st3 st4,
    JsonValueFree
      (JsonArrayAppendValue
         (construct (λ _, Some [0x78%Z]) store_empty_array
                    (InitUnicodeString [0x78%Z])).2
         (Some (JCell 1)) (Some (JCell 2))).2
      (Some (JCell 1)) = Done st3 ∧
    JsonValueFree st3 (Some (JCell 2)) = Done st4 ∧
    cells st4 = delete 1%positive (cells store_empty_array) ∧
    buffers store_empty_array = [] ∧
    buffers st4 = [[0x78%Z]].
Proof.
  destruct (refcount_discipline (λ _, Some [0x78%Z]) store_empty_array
              (construct (λ _, Some [0x78%Z]) store_empty_array
                         (InitUnicodeString [0x78%Z])).2
              (JsonArrayAppendValue
                 (construct (λ _, Some [0x78%Z]) store_empty_array
                            (InitUnicodeString [0x78%Z])).2
                 (Some (JCell 1)) (Some (JCell 2))).2
              (InitUnicodeString [0x78%Z]) (JCell 2) 1%positive []
              (held {[1%positive := 1]}))
    as (Hone & Htwo & _ & st3 & st4 & st_ref & Hfree_a & _ & _ & Hfree_v
        & _ & _ & _ & Hnet & _ & Hbufs).
  - apply accounted_check_sound. vm_compute. reflexivity.
  - reflexivity.
  - vm_compute. lia.
  - vm_compute. reflexivity.
  - vm_compute. reflexivity.
  - split; [exact Hone|]. split; [exact Htwo|].
    exists st3, st4. split; [exact Hfree_a|]. split; [exact Hfree_v|].
    split; [exact (Hnet eq_refl)|]. split; [reflexivity|exact Hbufs].
Defined.

(** * Further properties of the library *)

(** ** Numbers and strings *)

(** X1: an integer given to [JsonValueInitNumber], when the allocator
    grants the request, is what [JsonValueGetNumber] returns for the new
    value, in a debug build as in a release build. *)
Theorem number_round_trip (debug : bool) (st : heap) (Value : Z)
    (p : list bool) :
  pool st = true :: p →
  ∃ v st',
    JsonValueInitNumber st Value = (Some v, st') ∧
    JsonValueIsNumber st' (Some v) = true ∧
    JsonValueGetNumber debug st' (Some v) = Returned Value.
Proof.
  intros Hp. eexists _, _. split; [|split].
  - unfold JsonValueInitNumber, json_integer. by apply json_new_granted.
  - unfold JsonValueIsNumber, json_is_integer, json_is, json_typeof.
    cbn [cells]. by rewrite lookup_insert_eq.
  - unfold JsonValueGetNumber, ASSERT, JsonValueIsNumber, json_is_integer,
      json_is, json_typeof, json_integer_value.
    cbn [cells]. rewrite lookup_insert_eq. by destruct debug.
Qed.

Lemma number_round_trip_witness :
  ∃ v st',
    JsonValueInitNumber (Heap ∅ [true] []) (-42) = (Some v, st') ∧
    JsonValueIsNumber st' (Some v) = true ∧
    JsonValueGetNumber true st' (Some v) = Returned (-42)%Z.
Proof. apply (number_round_trip true (Heap ∅ [true] []) (-42) []). reflexivity. Defined.

(** X2: a wide string whose transcoding to the narrow form succeeds and is
    undone by the transcoding back is read back unchanged by
    [JsonValueGetUnicodeString] from the value that
    [JsonValueInitUnicodeString] makes of it. *)
Theorem unicode_string_round_trip
    (UCS2StrToUTF8 UTF8StrToUCS2 : list Z → option (list Z))
    (st : heap) (wide Utf8Str : list Z) (p : list bool) :
  UCS2StrToUTF8 wide = Some Utf8Str →
  Forall (λ c, c ≠ 0%Z) Utf8Str →
  UTF8StrToUCS2 Utf8Str = Some wide →
  pool st = true :: p →
  ∃ v st',
    JsonValueInitUnicodeString UCS2StrToUTF8 st (Some wide) = (Some v, st') ∧
    JsonValueGetUnicodeString UTF8StrToUCS2 st' (Some v) = Some wide.
Proof.
  intros Hto Hnul Hback Hp. eexists _, _. split.
  - unfold JsonValueInitUnicodeString, json_string. rewrite Hto.
    by apply json_new_granted.
  - unfold JsonValueGetUnicodeString, json_string_value. cbn [cells].
    by rewrite lookup_insert_eq, cstr_id, Hback.
Qed.

Lemma unicode_string_round_trip_witness :
  ∃ v st',
    JsonValueInitUnicodeString
      (λ w, if decide (w = [0xE9%Z]) then Some [0xC3; 0xA9]%Z else None)
      (Heap ∅ [true] []) (Some [0xE9%Z]) = (Some v, st') ∧
    JsonValueGetUnicodeString
      (λ u, if decide (u = [0xC3; 0xA9]%Z) then Some [0xE9%Z] else None)
      st' (Some v) = Some [0xE9%Z].
Proof.
  apply (unicode_string_round_trip
           (λ w, if decide (w = [0xE9%Z]) then Some [0xC3; 0xA9]%Z else None)
           (λ u, if decide (u = [0xC3; 0xA9]%Z) then Some [0xE9%Z] else None)
           (Heap ∅ [true] []) [0xE9%Z] [0xC3; 0xA9]%Z []).
  - reflexivity.
  - repeat constructor; lia.
  - reflexivity.
  - reflexivity.
Defined.

(** X3: [JsonValueInitUnicodeString] returns a value exactly when its
    argument is not NULL, the transcoding succeeds and the allocator grants
    the request; when it returns NULL no cell has been added. *)
Theorem init_unicode_string_result
    (UCS2StrToUTF8 : list Z → option (list Z)) (st : heap)
    (String : option (list Z)) :
  ((JsonValueInitUnicodeString UCS2StrToUTF8 st String).1 ≠ None
   ↔ ∃ wide, String = Some wide ∧ is_Some (UCS2StrToUTF8 wide) ∧
             (draw (pool st)).1 = true) ∧
  ((JsonValueInitUnicodeString UCS2StrToUTF8 st String).1 = None →
   cells (JsonValueInitUnicodeString UCS2StrToUTF8 st String).2 = cells st).
Proof.
  unfold JsonValueInitUnicodeString, json_string, json_new.
  destruct String as [wide|]; cbn [fst snd].
  - destruct (UCS2StrToUTF8 wide) as [u|] eqn:Hu; cbn [fst snd pool cells].
    + destruct (draw (pool st)) as [[] p]; cbn [fst snd cells]; split;
        try done.
      * split; [|done]. intros _. exists wide. by rewrite Hu.
      * split; [done|]. by intros (? & _ & _ & ?).
    + split; [|done]. split; [done|].
      intros (w & [= <-] & [u Hu'] & _). congruence.
  - split; [|done]. split; [done|]. by intros (? & ? & _).
Qed.

(** X4: [JsonValueInitAsciiString] returns a value exactly when its
    argument is not NULL, every byte before the terminator is below [0x80]
    and the allocator grants the request; when it returns NULL no cell has
    been added. *)
Theorem init_ascii_string_exactly (st : heap) (String : CHAR8_ptr) :
  (∀ mem, String = Some mem → Forall (λ c, 0 ≤ c < 0x100)%Z mem) →
  ((JsonValueInitAsciiString st String).1 ≠ None
   ↔ ∃ mem, String = Some mem ∧ Forall (λ c, c < 0x80)%Z (cstr mem) ∧
            (draw (pool st)).1 = true) ∧
  ((JsonValueInitAsciiString st String).1 = None →
   cells (JsonValueInitAsciiString st String).2 = cells st).
Proof.
  intros Hbytes. unfold JsonValueInitAsciiString, json_string, json_new.
  destruct String as [mem|]; cbn [fst snd].
  - rewrite (ascii_loop_spec mem (Hbytes mem eq_refl)).
    case_bool_decide as Hascii; cbn [fst snd].
    + destruct (draw (pool st)) as [[] p]; cbn [fst snd cells]; split;
        try done.
      * split; [|done]. intros _. by exists mem.
      * split; [done|]. by intros (? & _ & _ & ?).
    + split; [|done]. split; [done|]. by intros (? & [= <-] & ? & _).
  - split; [|done]. split; [done|]. by intros (? & ? & _).
Qed.

Lemma init_ascii_string_exactly_witness :
  (JsonValueInitAsciiString (Heap ∅ [true] []) (Some [0x68; 0x69]%Z)).1 ≠ None ∧
  cells (JsonValueInitAsciiString (Heap ∅ [true] []) (Some [0x68; 0xE9]%Z)).2 = ∅.
Proof.
  split.
  - apply (proj1 (init_ascii_string_exactly (Heap ∅ [true] [])
                    (Some [0x68; 0x69]%Z) ltac:(intros ? [= <-]; repeat constructor; lia))).
    exists [0x68; 0x69]%Z. split; [reflexivity|].
    split; [repeat constructor; lia|reflexivity].
  - apply (proj2 (init_ascii_string_exactly (Heap ∅ [true] [])
                    (Some [0x68; 0xE9]%Z) ltac:(intros ? [= <-]; repeat constructor; lia))).
    reflexivity.
Defined.

Lemma ascii_loop_cut (s t : list Z) :
  Forall (λ c, c ≠ 0%Z) s → ascii_loop (s ++ 0%Z :: t) = ascii_loop s.
Proof.
  induction 1 as [|c s Hc _ IH]; simpl; [done|].
  destruct (Z.eqb_spec c 0); [done|]. by rewrite IH.
Qed.

Lemma cstr_cut (s t : list Z) :
  Forall (λ c, c ≠ 0%Z) s → cstr (s ++ 0%Z :: t) = s.
Proof.
  induction 1 as [|c s Hc _ IH]; simpl; [done|].
  destruct (Z.eqb_spec c 0); [done|]. by rewrite IH.
Qed.

(** X5: the bytes that follow the first NUL of the argument of
    [JsonValueInitAsciiString] never matter, whatever they are: the result
    and the store are those obtained for the bytes before that NUL. *)
Theorem init_ascii_string_stops_at_nul (st : heap) (s t : list Z) :
  Forall (λ c, c ≠ 0%Z) s →
  JsonValueInitAsciiString st (Some (s ++ 0%Z :: t))
  = JsonValueInitAsciiString st (Some s).
Proof.
  intros Hs. unfold JsonValueInitAsciiString, json_string.
  by rewrite (ascii_loop_cut s t Hs), (cstr_cut s t Hs), (cstr_id s Hs).
Qed.

Lemma init_ascii_string_stops_at_nul_witness :
  JsonValueInitAsciiString (Heap ∅ [true] []) (Some [0x68; 0x69; 0; 0xFF; 0x80]%Z)
  = JsonValueInitAsciiString (Heap ∅ [true] []) (Some [0x68; 0x69]%Z).
Proof.
  apply (init_ascii_string_stops_at_nul (Heap ∅ [true] []) [0x68; 0x69]%Z
           [0xFF; 0x80]%Z).
  repeat constructor; lia.
Defined.

(** X6: both string getters return NULL for every handle that is not a
    string value (NULL, a canonical value, a number, a container), the wide
    getter whatever the transcoder is. *)
Theorem string_getters_need_string
    (UTF8StrToUCS2 : list Z → option (list Z)) (st : heap)
    (Json : EDKII_JSON_VALUE) :
  JsonValueIsString st Json = false →
  JsonValueGetAsciiString st Json = None ∧
  JsonValueGetUnicodeString UTF8StrToUCS2 st Json = None.
Proof.
  unfold JsonValueIsString, json_is_string, json_is, JsonValueGetAsciiString,
    JsonValueGetUnicodeString, json_string_value, json_typeof.
  destruct Json as [[| | |l]|]; try done.
  by destruct (cells st !! l) as [[rc [n|s|items|entries]]|].
Qed.

Lemma string_getters_need_string_witness :
  JsonValueGetAsciiString (Heap {[ 1%positive := Cell 1 (VInteger 7) ]} [] [])
    (Some (JCell 1)) = None ∧
  JsonValueGetUnicodeString (λ u, Some u)
    (Heap {[ 1%positive := Cell 1 (VInteger 7) ]} [] []) (Some (JCell 1)) = None.
Proof.
  apply (string_getters_need_string (λ u, Some u)
           (Heap {[ 1%positive := Cell 1 (VInteger 7) ]} [] []) (Some (JCell 1))).
  reflexivity.
Defined.

Lemma unicode_string_not_ascii_witness :
  ∃ v st',
    JsonValueInitUnicodeString (λ _, Some [0xC3; 0xA9]%Z) (Heap ∅ [true] [])
      (Some [0xE9%Z]) = (Some v, st') ∧
    JsonValueIsString st' (Some v) = true ∧
    JsonValueGetAsciiString st' (Some v) = None.
Proof.
  apply (unicode_string_not_ascii (λ _, Some [0xC3; 0xA9]%Z) (Heap ∅ [true] [])
           [0xE9%Z] [0xC3; 0xA9]%Z []).
  - reflexivity.
  - repeat constructor; lia.
  - apply Exists_cons_hd. lia.
  - reflexivity.
Defined.

(** ** Views of a value *)

Lemma heap_eta (st : heap) : Heap (cells st) (pool st) (buffers st) = st.
Proof. by destruct st. Qed.

Lemma array_view (m : gmap loc json_t) (a : loc) (items : list json_ref) :
  body <$> m !! a = Some (VArray items) →
  json_array_size m (Some (JCell a)) = length items ∧
  ∀ i, json_array_get m (Some (JCell a)) i = items !! i.
Proof.
  unfold json_array_size, json_array_get.
  destruct (m !! a) as [[rc b]|]; [|done]. by intros [= ->].
Qed.

(** X7: what [JsonValueGetArray] and [JsonValueGetObject] return is the
    handle itself or NULL, never both views of one handle, and counting
    through the view gives the same number as counting the handle. *)
Theorem value_views (st : heap) (Json : EDKII_JSON_VALUE) :
  JsonValueGetArray st Json
    = (if JsonValueIsArray st Json then Json else None) ∧
  JsonValueGetObject st Json
    = (if JsonValueIsObject st Json then Json else None) ∧
  (JsonValueGetArray st Json = None ∨ JsonValueGetObject st Json = None) ∧
  JsonArrayCount st (JsonValueGetArray st Json) = JsonArrayCount st Json ∧
  JsonObjectSize st (JsonValueGetObject st Json) = JsonObjectSize st Json.
Proof.
  unfold JsonValueGetArray, JsonValueGetObject, JsonValueIsArray,
    JsonValueIsObject, json_is_array, json_is_object, json_is, JsonArrayCount,
    JsonObjectSize, json_typeof, json_array_size, json_object_size.
  destruct Json as [[| | |l]|]; cbn; auto 10.
  destruct (cells st !! l) as [[rc [n|s|items|entries]]|] eqn:Hl;
    repeat case_bool_decide; simplify_eq; cbn; rewrite ?Hl; auto 10.
Qed.

(** ** Arrays *)

(** X8: [JsonArrayGetValue] returns a value exactly for the indices below
    [JsonArrayCount], for every handle (the count of NULL and of a value
    that is not an array being 0). *)
Theorem array_get_in_range (st : heap) (JsonArray : EDKII_JSON_ARRAY)
    (Index : nat) :
  is_Some (JsonArrayGetValue st JsonArray Index)
  ↔ Index < JsonArrayCount st JsonArray.
Proof.
  unfold JsonArrayGetValue, JsonArrayCount, json_array_get, json_array_size.
  destruct JsonArray as [[| | |l]|];
    try (split; [by intros [? [=]]|simpl; lia]).
  destruct (cells st !! l) as [[rc [n|s|items|entries]]|];
    try (split; [by intros [? [=]]|simpl; lia]).
  apply lookup_lt_is_Some.
Qed.

(** X9: a successful [JsonArrayAppendValue] puts the value at the index
    that was the count, raises the count by one, keeps every element
    below, gives the value one more reference and changes no other cell. *)
Theorem array_append_success (st : heap) (a : loc) (rc : nat)
    (items : list json_ref) (v : json_ref) (p : list bool) :
  cells st !! a = Some (Cell rc (VArray items)) →
  pool st = true :: p →
  ∃ st',
    JsonArrayAppendValue st (Some (JCell a)) (Some v) = (EFI_SUCCESS, st') ∧
    JsonArrayCount st' (Some (JCell a)) = S (JsonArrayCount st (Some (JCell a))) ∧
    JsonArrayGetValue st' (Some (JCell a)) (JsonArrayCount st (Some (JCell a)))
      = Some v ∧
    (∀ j, j < JsonArrayCount st (Some (JCell a)) →
          JsonArrayGetValue st' (Some (JCell a)) j
          = JsonArrayGetValue st (Some (JCell a)) j) ∧
    (∀ lv cv, v = JCell lv → lv ≠ a → cells st !! lv = Some cv →
              cells st' !! lv = Some (Cell (S (refcount cv)) (body cv))) ∧
    (∀ l, l ≠ a → v ≠ JCell l → cells st' !! l = cells st !! l).
Proof.
  intros Ha Hp.
  set (m' := json_incref (<[a := Cell rc (VArray (items ++ [v]))]> (cells st))
                         (Some v)).
  assert (Hbody : body <$> m' !! a = Some (VArray (items ++ [v]))).
  { unfold m'. by rewrite json_incref_body, lookup_insert_eq. }
  destruct (array_view m' a _ Hbody) as [Hsize Hget].
  assert (Hcount : JsonArrayCount st (Some (JCell a)) = length items).
  { unfold JsonArrayCount, json_array_size. by rewrite Ha. }
  exists (Heap m' p (buffers st)). rewrite Hcount.
  split; [|split; [|split; [|split; [|split]]]].
  - unfold JsonArrayAppendValue, json_array_append. by rewrite Ha, Hp.
  - unfold JsonArrayCount. cbn [cells]. rewrite Hsize, length_app. simpl. lia.
  - unfold JsonArrayGetValue. cbn [cells].
    by rewrite Hget, lookup_app_r, Nat.sub_diag.
  - intros j Hj. unfold JsonArrayGetValue, json_array_get at 2. cbn [cells].
    by rewrite Hget, Ha, lookup_app_l.
  - intros lv cv -> Hne Hlv. cbn [cells]. unfold m'.
    apply json_incref_lookup_eq. by rewrite lookup_insert_ne.
  - intros l Hne Hv. cbn [cells]. unfold m'.
    by rewrite json_incref_lookup_ne, lookup_insert_ne.
Qed.

Lemma array_append_success_witness :
  ∃ st',
    JsonArrayAppendValue store_array_10_20_30 (Some (JCell 1)) (Some (JCell 2))
      = (EFI_SUCCESS, st') ∧
    JsonArrayCount st' (Some (JCell 1)) = 4 ∧
    JsonArrayGetValue st' (Some (JCell 1)) 3 = Some (JCell 2) ∧
    cells st' !! 2%positive = Some (Cell 2 (VInteger 10)).
Proof.
  destruct (array_append_success store_array_10_20_30 1%positive 1
              [JCell 2; JCell 3; JCell 4] (JCell 2) [])
    as (st' & Hcall & Hcount & Hget & _ & Hrc & _).
  - reflexivity.
  - reflexivity.
  - exists st'. split; [exact Hcall|]. split; [exact Hcount|].
    split; [exact Hget|].
    exact (Hrc 2%positive (Cell 1 (VInteger 10)) eq_refl ltac:(discriminate)
             eq_refl).
Defined.

Lemma JsonValueIsArray_true (st : heap) (Json : EDKII_JSON_VALUE) :
  JsonValueIsArray st Json = true
  ↔ ∃ l rc items, Json = Some (JCell l) ∧
                  cells st !! l = Some (Cell rc (VArray items)).
Proof.
  unfold JsonValueIsArray, json_is_array, json_is, json_typeof.
  rewrite bool_decide_eq_true. split.
  - destruct Json as [[| | |l]|]; try done.
    destruct (cells st !! l) as [[rc [n|s|items|entries]]|] eqn:Hl; try done.
    intros _. by exists l, rc, items.
  - by intros (l & rc & items & -> & ->).
Qed.

(** X10: [JsonArrayAppendValue] reports [EFI_ABORTED] whenever the handle
    is not an array or the value is NULL, whatever the allocator would
    answer, so that a success means an array and a value; and whenever it
    reports [EFI_ABORTED], for these or for any other reason, no cell has
    changed. *)
Theorem array_append_status (st : heap) (JsonArray : EDKII_JSON_ARRAY)
    (Json : EDKII_JSON_VALUE) :
  (JsonValueIsArray st JsonArray = false ∨ Json = None →
   (JsonArrayAppendValue st JsonArray Json).1 = EFI_ABORTED) ∧
  ((JsonArrayAppendValue st JsonArray Json).1 = EFI_SUCCESS →
   JsonValueIsArray st JsonArray = true ∧ Json ≠ None) ∧
  ((JsonArrayAppendValue st JsonArray Json).1 = EFI_ABORTED →
   cells (JsonArrayAppendValue st JsonArray Json).2 = cells st).
Proof.
  destruct (JsonValueIsArray st JsonArray) eqn:His.
  - apply JsonValueIsArray_true in His as (l & rc & items & -> & Hl).
    unfold JsonArrayAppendValue, json_array_append.
    destruct Json as [v|]; [|by split; [|split]]. rewrite Hl.
    destruct (draw (pool st)) as [[] p]; cbn -[json_incref];
      (split; [by intros [|]|split; done]).
  - assert (Hab : JsonArrayAppendValue st JsonArray Json = (EFI_ABORTED, st)).
    { unfold JsonArrayAppendValue, json_array_append.
      destruct JsonArray as [[| | |l]|]; try by destruct Json.
      destruct Json as [v|]; [|done].
      destruct (cells st !! l) as [[rc [n|s|items|entries]]|] eqn:Hl;
        try done.
      exfalso. revert His.
      rewrite (proj2 (JsonValueIsArray_true st (Some (JCell l)))); [done|].
      by exists l, rc, items. }
    rewrite Hab. by split; [|split].
Qed.

(** Retaining a live value and releasing it again changes nothing. *)
Lemma json_decref_incref (m : gmap loc json_t) (v : json_ref) :
  (∀ lv, v = JCell lv → ∃ cv, m !! lv = Some cv ∧ 0 < refcount cv) →
  json_decref (json_incref m (Some v)) (Some v) = Done m.
Proof.
  intros Hv. destruct v as [| | |lv]; try by apply json_decref_static.
  destruct (Hv lv eq_refl) as ([rcv bv] & Hlv & Hrc). simpl in Hrc.
  rewrite (json_decref_shared _ lv _ (json_incref_lookup_eq m lv _ Hlv))
    by (simpl; lia).
  cbn [json_incref refcount body]. rewrite insert_alter_eq.
  replace (S rcv - 1) with rcv by lia. by rewrite insert_id.
Qed.

Lemma JsonArrayRemoveValue_step (st : heap) (a : loc) (rc rc1 : nat)
    (items items1 : list json_ref) (i : nat) (x : json_ref)
    (m1 : gmap loc json_t) :
  cells st !! a = Some (Cell rc (VArray items)) →
  items !! i = Some x →
  json_decref (cells st) (Some x) = Done m1 →
  m1 !! a = Some (Cell rc1 (VArray items1)) →
  JsonArrayRemoveValue st (Some (JCell a)) i
  = Done (EFI_SUCCESS,
          Heap (<[a := Cell rc1 (VArray (delete i items1))]> m1) (pool st) (buffers st)).
Proof.
  intros Ha Hx Hdec Ha1. unfold JsonArrayRemoveValue, json_array_remove.
  rewrite Ha, Hx, Hdec. cbn [bind_outcome]. by rewrite Ha1.
Qed.

(** X11: removing the element that a successful append has just added
    gives back the cells of the store as they were before the append. *)
Theorem array_append_remove (st : heap) (a : loc) (rc : nat)
    (items : list json_ref) (v : json_ref) (p : list bool) :
  cells st !! a = Some (Cell rc (VArray items)) →
  pool st = true :: p →
  (∀ lv, v = JCell lv → ∃ cv, cells st !! lv = Some cv ∧ 0 < refcount cv) →
  ∃ st1 st2,
    JsonArrayAppendValue st (Some (JCell a)) (Some v) = (EFI_SUCCESS, st1) ∧
    JsonArrayRemoveValue st1 (Some (JCell a)) (JsonArrayCount st (Some (JCell a)))
      = Done (EFI_SUCCESS, st2) ∧
    cells st2 = cells st.
Proof.
  intros Ha Hp Hv.
  set (mA := <[a := Cell rc (VArray (items ++ [v]))]> (cells st)).
  assert (Hcount : JsonArrayCount st (Some (JCell a)) = length items).
  { unfold JsonArrayCount, json_array_size. by rewrite Ha. }
  assert (Hlast : (items ++ [v]) !! length items = Some v).
  { by rewrite lookup_app_r, Nat.sub_diag. }
  assert (Hdel : delete (length items) (items ++ [v]) = items).
  { rewrite delete_take_drop, take_app_length.
    rewrite drop_ge; [by rewrite app_nil_r|]. rewrite length_app. simpl. lia. }
  assert (HvA : ∀ lv, v = JCell lv →
                      ∃ cv, mA !! lv = Some cv ∧ 0 < refcount cv).
  { intros lv ->. destruct (Hv lv eq_refl) as (cv & Hlv & Hrc).
    destruct (decide (lv = a)) as [->|Hne].
    - simplify_eq. eexists. split; [apply lookup_insert_eq|done].
    - exists cv. unfold mA. by rewrite lookup_insert_ne. }
  assert (Ha1 : ∃ rc0, json_incref mA (Some v) !! a
                       = Some (Cell rc0 (VArray (items ++ [v])))).
  { pose proof (json_incref_body mA (Some v) a) as Hb.
    unfold mA in Hb at 2. rewrite lookup_insert_eq in Hb.
    destruct (json_incref mA (Some v) !! a) as [[rc0 b0]|]; [|done].
    injection Hb as ->. by exists rc0. }
  destruct Ha1 as [rc0 Ha1].
  exists (Heap (json_incref mA (Some v)) p (buffers st)). eexists.
  split; [|split].
  - unfold JsonArrayAppendValue, json_array_append. by rewrite Ha, Hp.
  - rewrite Hcount.
    apply (JsonArrayRemoveValue_step _ a rc0 rc (items ++ [v]) (items ++ [v])
             (length items) v mA); cbn [cells]; [done|done| |].
    + by apply json_decref_incref.
    + apply lookup_insert_eq.
  - cbn [cells]. unfold mA. by rewrite Hdel, insert_insert_eq, insert_id.
Qed.

Lemma array_append_remove_witness :
  ∃ st1 st2,
    JsonArrayAppendValue store_array_10_20_30 (Some (JCell 1)) (Some (JCell 3))
      = (EFI_SUCCESS, st1) ∧
    JsonArrayRemoveValue st1 (Some (JCell 1)) 3 = Done (EFI_SUCCESS, st2) ∧
    cells st2 = cells store_array_10_20_30.
Proof.
  apply (array_append_remove store_array_10_20_30 1%positive 1
           [JCell 2; JCell 3; JCell 4] (JCell 3) []).
  - reflexivity.
  - reflexivity.
  - intros lv [= <-]. exists (Cell 1 (VInteger 20)). split; [reflexivity|].
    simpl. lia.
Defined.

(** X12: [JsonArrayRemoveValue] reports [EFI_ABORTED] exactly when
    [JsonArrayGetValue] returns NULL for the same handle and index, and
    then the store is untouched. *)
Theorem array_remove_aborts (st st' : heap) (JsonArray : EDKII_JSON_ARRAY)
    (Index : nat) :
  JsonArrayRemoveValue st JsonArray Index = Done (EFI_ABORTED, st')
  ↔ JsonArrayGetValue st JsonArray Index = None ∧ st' = st.
Proof.
  unfold JsonArrayRemoveValue, json_array_remove, JsonArrayGetValue,
    json_array_get.
  destruct JsonArray as [[| | |l]|];
    try (cbn; split; [by intros [= <-]|by intros [_ ->]]).
  destruct (cells st !! l) as [[rc [n|s|items|entries]]|];
    try (cbn; split; [by intros [= <-]|by intros [_ ->]]).
  destruct (items !! Index) as [x|];
    [|cbn; split; [by intros [= <-]|by intros [_ ->]]].
  split; [|by intros [[=] _]].
  destruct (json_decref (cells st) (Some x)) as [m1| |]; cbn; [|done..].
  by destruct (m1 !! l) as [[rc1 [n|s|items1|entries]]|].
Qed.

(** ** Objects *)




Lemma find_key_insert_other (k k' : list Z)
    (entries : list (list Z * json_ref)) (i : nat) (old v : json_ref) :
  entries !! i = Some (k, old) → k' ≠ k →
  find_key k' (<[i := (k, v)]> entries) = find_key k' entries.
Proof.
  unfold find_key. revert i.
  induction entries as [|e entries IH]; intros [|i] Hi Hne; simplify_eq/=.
  - by rewrite !decide_False by congruence.
  - case_decide; [done|]. by rewrite IH.
Qed.

(** The store that a successful set of a bound key leaves. *)
Lemma JsonObjectSetValue_rebind (st : heap) (o : loc) (rc : nat)
    (entries : list (list Z * json_ref)) (Key : list Z) (i : nat)
    (k0 : list Z) (old v : json_ref) (p : list bool) (ext : loc → nat) :
  cells st !! o = Some (Cell rc (VObject entries)) →
  find_key (cstr Key) entries = Some (i, (k0, old)) →
  pool st = true :: p →
  accounted ext [] (cells st) →
  0 < ext o →
  (∀ l, v = JCell l → 0 < ext l) →
  v ≠ JCell o →
  ∃ rc1 m1,
    JsonObjectSetValue st (Some (JCell o)) (Some Key) (Some v)
      = Done (EFI_SUCCESS, Heap (json_incref m1 (Some v)) p (buffers st)) ∧
    m1 !! o = Some (Cell rc1 (VObject (<[i := (cstr Key, v)]> entries))).
Proof.
  intros Ho Hfind Hp Hacc Hext Hv Hself.
  destruct (find_key_Some _ _ _ _ _ Hfind) as [Hi ->].
  set (k := cstr Key) in *.
  pose proof (accounted_rebind ext _ o rc entries i k old v Ho Hi Hv Hacc)
    as Hacc'.
  destruct (release_accounted _ _ _ Hacc') as (m1 & Hrel & _ & Hkeep).
  assert (Hgive : relinquish ext v o = ext o).
  { unfold relinquish. pose proof (holds_one v o) as Hone.
    destruct (holds [v] o); [lia|]. destruct Hself. apply Hone. lia. }
  destruct (release_rebody o (VObject entries) (VObject (<[i := (k, v)]> entries))
              (cells st) [old] rc m1 Ho Hrel) as (rc1 & Ho1 & Hrel0).
  { destruct (Hkeep o _ (lookup_insert_eq _ _ _)) as (c' & -> & _); [lia|eauto]. }
  exists rc1, m1. split; [|done].
  unfold JsonObjectSetValue, json_object_set. rewrite Ho, Hp. cbn [draw].
  fold k. rewrite Hfind. cbn [json_decref]. rewrite Hrel0. cbn [bind_outcome].
  rewrite lookup_insert_eq, insert_insert_eq, (insert_id m1) by done. done.
Qed.

(** X14: a successful [JsonObjectSetValue] on a key that the object binds
    leaves every other key reading the value it read before. *)
Theorem object_set_keeps_other_keys (st : heap) (o : loc) (rc : nat)
    (entries : list (list Z * json_ref)) (Key : list Z) (i : nat)
    (k0 : list Z) (old v : json_ref) (p : list bool) (ext : loc → nat) :
  cells st !! o = Some (Cell rc (VObject entries)) →
  find_key (cstr Key) entries = Some (i, (k0, old)) →
  pool st = true :: p →
  accounted ext [] (cells st) →
  0 < ext o →
  (∀ l, v = JCell l → 0 < ext l) →
  v ≠ JCell o →
  ∃ st',
    JsonObjectSetValue st (Some (JCell o)) (Some Key) (Some v)
      = Done (EFI_SUCCESS, st') ∧
    ∀ Key', cstr Key' ≠ cstr Key →
            JsonObjectGetValue st' (Some (JCell o)) (Some Key')
            = JsonObjectGetValue st (Some (JCell o)) (Some Key').
Proof.
  intros Ho Hfind Hp Hacc Hext Hv Hself.
  destruct (JsonObjectSetValue_rebind st o rc entries Key i k0 old v p ext
              Ho Hfind Hp Hacc Hext Hv Hself) as (rc1 & m1 & Hcall & Ho1).
  destruct (find_key_Some _ _ _ _ _ Hfind) as [Hi _].
  eexists. split; [exact Hcall|]. intros Key' Hne.
  unfold JsonObjectGetValue. cbn [cells].
  destruct (object_view (json_incref m1 (Some v)) o
              (<[i := (cstr Key, v)]> entries)) as (_ & _ & Hget).
  { by rewrite json_incref_body, Ho1. }
  destruct (object_view (cells st) o entries) as (_ & _ & Hget0).
  { by rewrite Ho. }
  by rewrite Hget, Hget0, (find_key_insert_other _ _ _ _ old).
Qed.

Lemma object_set_keeps_other_keys_witness :
  ∃ st',
    JsonObjectSetValue
      (Heap (<[1%positive := Cell 1 (VObject [([0x61%Z], JTrue); ([0x62%Z], JNull)])]> ∅)
            [true] [])
      (Some (JCell 1)) (Some [0x61%Z]) (Some JFalse) = Done (EFI_SUCCESS, st') ∧
    JsonObjectGetValue st' (Some (JCell 1)) (Some [0x62%Z]) = Some JNull.
Proof.
  destruct (object_set_keeps_other_keys
              (Heap (<[1%positive := Cell 1 (VObject [([0x61%Z], JTrue); ([0x62%Z], JNull)])]> ∅)
                    [true] [])
              1%positive 1 [([0x61%Z], JTrue); ([0x62%Z], JNull)] [0x61%Z] 0
              [0x61%Z] JTrue JFalse [] (held {[1%positive := 1]}))
    as (st' & Hcall & Hother).
  - reflexivity.
  - reflexivity.
  - reflexivity.
  - apply accounted_check_sound. vm_compute. reflexivity.
  - vm_compute. lia.
  - discriminate.
  - discriminate.
  - exists st'. split; [exact Hcall|].
    exact (Hother [0x62%Z] ltac:(discriminate)).
Defined.

(** ** Keys *)

Lemma JsonObjectGetKeys_Some (st st' : heap) (JsonObj : EDKII_JSON_OBJECT)
    (KeyCount KeyCount' : option nat) (KeyArray : list CHAR8_ptr) :
  JsonObjectGetKeys st JsonObj KeyCount = (Some KeyArray, KeyCount', st') →
  KeyArray = (λ e, Some e.1) <$> json_object_iter (cells st) JsonObj ∧
  KeyCount' = Some (length KeyArray).
Proof.
  unfold JsonObjectGetKeys. rewrite count_loop. cbn [plus].
  destruct (_ || _); [done|].
  destruct (Nat.eqb_spec (length (json_object_iter (cells st) JsonObj)) 0);
    [done|].
  unfold AllocateZeroPool. destruct (draw (pool st)) as [[] p]; [|done].
  pose proof (fill_loop (json_object_iter (cells st) JsonObj) []) as Hfill.
  cbn [app length plus] in Hfill. rewrite Hfill. cbn [fst].
  intros [= <- <- <-]. by rewrite length_fmap.
Qed.

(** X15: when [JsonObjectGetKeys] returns a key array, the array has as
    many entries as [JsonObjectSize] counts and as [KeyCount] receives,
    none of them NULL, and a key is in the array exactly when
    [JsonObjectGetValue] finds a value for it. *)
Theorem get_keys_are_bound (st st' : heap) (JsonObj : EDKII_JSON_OBJECT)
    (KeyCount KeyCount' : option nat) (KeyArray : list CHAR8_ptr) :
  JsonObjectGetKeys st JsonObj KeyCount = (Some KeyArray, KeyCount', st') →
  length KeyArray = JsonObjectSize st JsonObj ∧
  KeyCount' = Some (JsonObjectSize st JsonObj) ∧
  Forall is_Some KeyArray ∧
  ∀ k, Forall (λ c, c ≠ 0%Z) k →
       (Some k ∈ KeyArray
        ↔ is_Some (JsonObjectGetValue st JsonObj (Some k))).
Proof.
  intros [-> ->]%JsonObjectGetKeys_Some.
  unfold JsonObjectSize, JsonObjectGetValue.
  rewrite length_fmap, json_object_iter_length.
  split; [done|]. split; [done|]. split.
  { apply Forall_fmap, Forall_true. by eexists. }
  intros k Hk. unfold json_object_iter, json_object_get.
  destruct JsonObj as [[| | |l]|];
    try (split; [by intros ?%elem_of_nil|by intros [? [=]]]).
  destruct (cells st !! l) as [[rc [n|s|items|entries]]|];
    try (split; [by intros ?%elem_of_nil|by intros [? [=]]]).
  rewrite (cstr_id k Hk). unfold find_key. split.
  - intros ([k' v] & [= Hkk] & Hin)%list_elem_of_fmap. simpl in Hkk.
    destruct (list_find (λ e, e.1 = k) entries) as [[i [k0 v0]]|] eqn:Hfind;
      [by eexists|].
    apply list_find_None in Hfind. rewrite Forall_forall in Hfind.
    by destruct (Hfind _ Hin).
  - destruct (list_find (λ e, e.1 = k) entries) as [[i [k0 v0]]|] eqn:Hfind;
      [|by intros [? [=]]].
    intros _. apply list_find_Some in Hfind as (Hi & Hk0 & _). simpl in Hk0.
    subst. apply list_elem_of_fmap. exists (k, v0). split; [done|].
    by eapply list_elem_of_lookup_2.
Qed.

Lemma get_keys_are_bound_witness :
  JsonObjectGetKeys store_object_a_1 (Some (JCell 1)) (Some 0)
  = (Some [Some [0x61%Z]], Some 1, Heap (cells store_object_a_1) [] []) ∧
  is_Some (JsonObjectGetValue store_object_a_1 (Some (JCell 1)) (Some [0x61%Z])).
Proof.
  split; [reflexivity|].
  apply (proj2 (proj2 (proj2 (get_keys_are_bound store_object_a_1
           (Heap (cells store_object_a_1) [] []) (Some (JCell 1)) (Some 0)
           (Some 1) [Some [0x61%Z]] eq_refl))) [0x61%Z]).
  - repeat constructor; lia.
  - apply elem_of_cons. by left.
Defined.

(** ** Releasing values *)

(** X16: releasing NULL, a boolean value or the null value changes
    nothing in the store, however often it is done. *)
Theorem free_canonical (st : heap) (Value : bool) :
  JsonValueFree st None = Done st ∧
  JsonValueFree st (JsonValueInitBoolean Value) = Done st ∧
  JsonValueFree st JsonValueInitNull = Done st.
Proof.
  unfold JsonValueFree, JsonValueInitBoolean, JsonValueInitNull.
  rewrite !json_decref_static by (by destruct Value).
  cbn [json_decref bind_outcome]. by rewrite heap_eta.
Qed.

(** X17: releasing one reference of a value that has others lowers its
    count by one and changes nothing else; releasing the last reference of
    a value that holds no references removes the value and changes nothing
    else, and the handle has no kind any more. *)
Theorem free_one_reference (st : heap) (l : loc) (c : json_t) :
  cells st !! l = Some c →
  (1 < refcount c →
   JsonValueFree st (Some (JCell l))
   = Done (Heap (<[l := Cell (refcount c - 1) (body c)]> (cells st)) (pool st) (buffers st)) ∧
   ∀ Json, json_typeof
             (<[l := Cell (refcount c - 1) (body c)]> (cells st)) Json
           = json_typeof (cells st) Json) ∧
  (refcount c ≤ 1 → children c = [] →
   JsonValueFree st (Some (JCell l))
   = Done (Heap (delete l (cells st)) (pool st) (buffers st)) ∧
   json_typeof (delete l (cells st)) (Some (JCell l)) = None).
Proof.
  intros Hl. split.
  - intros Hrc. split.
    + unfold JsonValueFree. by rewrite (json_decref_shared _ l c Hl Hrc).
    + intros [[| | |l']|]; try done. unfold json_typeof.
      destruct (decide (l = l')) as [<-|Hne].
      * rewrite lookup_insert_eq, Hl. by destruct c.
      * by rewrite lookup_insert_ne.
  - intros Hrc Hleaf. split.
    + unfold JsonValueFree. by rewrite (json_decref_leaf _ l c Hl Hrc Hleaf).
    + unfold json_typeof. by rewrite lookup_delete_eq.
Qed.

Lemma free_one_reference_witness :
  JsonValueFree store_array_10_20_30 (Some (JCell 3))
  = Done (Heap (delete 3%positive (cells store_array_10_20_30)) [true] []).
Proof.
  refine (proj1 (proj2 (free_one_reference store_array_10_20_30 3%positive
                          (Cell 1 (VInteger 20)) _) _ _)).
  - reflexivity.
  - simpl. lia.
  - reflexivity.
Defined.

(** Releasing references to values that all keep other references only
    lowers counts, by the number of references released. *)
Lemma release_counts (work : list json_ref) :
  ∀ m : gmap loc json_t,
    (∀ l, 0 < holds work l →
          ∃ c, m !! l = Some c ∧ holds work l < refcount c) →
    ∃ m', release m work = Done m' ∧
          ∀ l, m' !! l
               = (λ c, Cell (refcount c - holds work l) (body c)) <$> m !! l.
Proof.
  induction work as [|json rest IH]; intros m Hlive.
  - exists m. rewrite release_nil. split; [done|]. intros l.
    destruct (m !! l) as [[rc b]|]; [|done]. simpl.
    change (holds [] l) with 0. by rewrite Nat.sub_0_r.
  - destruct json as [| | |l0].
    1-3: (destruct (IH m) as (m' & Hrel & Hm');
          [intros l Hl; apply Hlive; rewrite holds_cons; lia|];
          exists m'; rewrite release_static by done; split; [done|];
          intros l; rewrite Hm', holds_cons, holds_static by done; done).
    destruct (Hlive l0) as (c0 & Hl0 & Hrc0).
    { rewrite holds_cons, holds_cell, decide_True by done. lia. }
    rewrite holds_cons, holds_cell, decide_True in Hrc0 by done.
    destruct (IH (<[l0 := Cell (refcount c0 - 1) (body c0)]> m))
      as (m' & Hrel & Hm').
    { intros l Hl. destruct (decide (l = l0)) as [->|Hne].
      - eexists. split; [apply lookup_insert_eq|]. simpl. lia.
      - destruct (Hlive l) as (c & Hc & Hrc).
        { rewrite holds_cons. lia. }
        exists c. rewrite lookup_insert_ne by done. split; [done|].
        rewrite holds_cons, holds_cell, decide_False in Hrc by done. lia. }
    exists m'. rewrite (release_shared m l0 c0) by (done || lia).
    split; [done|]. intros l. rewrite Hm', holds_cons, holds_cell.
    destruct (decide (l0 = l)) as [<-|Hne].
    + rewrite lookup_insert_eq, Hl0. simpl. f_equal. f_equal. lia.
    + by rewrite lookup_insert_ne.
Qed.

(** X18: releasing the last reference of a container whose elements all
    keep other references destroys the container and lowers the count of
    each element by the number of slots that referred to it; no other cell
    changes. *)
Theorem free_container (st : heap) (a : loc) (c : json_t) :
  cells st !! a = Some c →
  refcount c ≤ 1 →
  holds (children c) a = 0 →
  (∀ l, 0 < holds (children c) l →
        ∃ c', cells st !! l = Some c' ∧ holds (children c) l < refcount c') →
  ∃ st',
    JsonValueFree st (Some (JCell a)) = Done st' ∧
    cells st' !! a = None ∧
    ∀ l, l ≠ a →
         cells st' !! l
         = (λ c', Cell (refcount c' - holds (children c) l) (body c'))
             <$> cells st !! l.
Proof.
  intros Ha Hrc Hself Hlive.
  destruct (release_counts (children c) (delete a (cells st)))
    as (m' & Hrel & Hm').
  { intros l Hl. destruct (Hlive l Hl) as (c' & Hc' & Hlt).
    exists c'. split; [|done]. rewrite lookup_delete_ne; [done|].
    intros <-. lia. }
  exists (Heap m' (pool st) (buffers st)). split; [|split].
  - unfold JsonValueFree. cbn [json_decref].
    rewrite (release_last _ a c), app_nil_r, Hrel by (done || lia). done.
  - cbn [cells]. by rewrite Hm', lookup_delete_eq.
  - intros l Hne. cbn [cells]. by rewrite Hm', lookup_delete_ne.
Qed.

Lemma free_container_witness :
  ∃ st',
    JsonValueFree
      (Heap (<[1%positive := Cell 1 (VArray [JCell 2; JTrue; JCell 2])]>
               {[2%positive := Cell 3 (VInteger 5)]}) [] [])
      (Some (JCell 1)) = Done st' ∧
    cells st' !! 1%positive = None ∧
    cells st' !! 2%positive = Some (Cell 1 (VInteger 5)).
Proof.
  destruct (free_container
              (Heap (<[1%positive := Cell 1 (VArray [JCell 2; JTrue; JCell 2])]>
                       {[2%positive := Cell 3 (VInteger 5)]}) [] [])
              1%positive (Cell 1 (VArray [JCell 2; JTrue; JCell 2])))
    as (st' & Hcall & Hgone & Hrest).
  - reflexivity.
  - simpl. lia.
  - reflexivity.
  - intros l Hl. destruct (decide (l = 2%positive)) as [->|Hne].
    + exists (Cell 3 (VInteger 5)). split; [reflexivity|]. vm_compute. lia.
    + exfalso. revert Hl. unfold holds. cbn [children body count_occ].
      repeat (destruct (json_ref_eq_dec _ _) as [[=]|_]; try done). lia.
  - exists st'. split; [exact Hcall|]. split; [exact Hgone|].
    exact (Hrest 2%positive ltac:(discriminate)).
Defined.

(** ** Constructors *)

(** X19: a constructor that returns a value returns a handle that was not
    live before, of the kind of the constructor, with reference count 1,
    and leaves every other cell as it was; a constructor that returns NULL
    leaves all cells as they were. *)
Theorem constructor_result (UCS2StrToUTF8 : list Z → option (list Z))
    (st : heap) (c : constructor) :
  match (construct UCS2StrToUTF8 st c).1 with
  | Some v =>
      ∃ l, v = JCell l ∧ cells st !! l = None ∧
           json_typeof (cells (construct UCS2StrToUTF8 st c).2) (Some v)
             = Some (kind_of c) ∧
           refcount_of (construct UCS2StrToUTF8 st c).2 v = Some 1 ∧
           ∀ l', l' ≠ l →
                 cells (construct UCS2StrToUTF8 st c).2 !! l' = cells st !! l'
  | None => cells (construct UCS2StrToUTF8 st c).2 = cells st
  end.
Proof.
  assert (Hnew : ∀ bufs b t,
    json_typeof (<[fresh (dom (cells st)) := Cell 1 b]> (cells st))
                (Some (JCell (fresh (dom (cells st))))) = Some t →
    match (json_new (Heap (cells st) (pool st) bufs) b).1 with
    | Some v =>
        ∃ l, v = JCell l ∧ cells st !! l = None ∧
             json_typeof (cells (json_new (Heap (cells st) (pool st) bufs) b).2)
                         (Some v) = Some t ∧
             refcount_of (json_new (Heap (cells st) (pool st) bufs) b).2 v
               = Some 1 ∧
             ∀ l', l' ≠ l →
                   cells (json_new (Heap (cells st) (pool st) bufs) b).2 !! l'
                   = cells st !! l'
    | None => cells (json_new (Heap (cells st) (pool st) bufs) b).2 = cells st
    end).
  { intros bufs b t Ht. unfold json_new. cbn [cells pool].
    destruct (draw (pool st)) as [[] p]; cbn [fst snd cells]; [|done].
    exists (fresh (dom (cells st))). split; [done|].
    split; [apply fresh_cell|]. split; [done|]. split.
    - simpl. by rewrite lookup_insert_eq.
    - intros l' Hne. by rewrite lookup_insert_ne. }
  destruct st as [m p bufs]. destruct c as [Value|String|String| |]; simpl.
  - apply Hnew. unfold json_typeof. by rewrite lookup_insert_eq.
  - destruct (ascii_loop String); [|done].
    apply Hnew. unfold json_typeof. by rewrite lookup_insert_eq.
  - destruct (UCS2StrToUTF8 String); [|done].
    apply Hnew. unfold json_typeof. by rewrite lookup_insert_eq.
  - apply Hnew. unfold json_typeof. by rewrite lookup_insert_eq.
  - apply Hnew. unfold json_typeof. by rewrite lookup_insert_eq.
Qed.

(** X20: in a store whose counts account for its references, the value a
    constructor returns is accounted for as one more reference held by the
    caller. *)
Theorem constructor_accounted (UCS2StrToUTF8 : list Z → option (list Z))
    (ext : loc → nat) (st st' : heap) (c : constructor) (v : json_ref) :
  accounted ext [] (cells st) →
  construct UCS2StrToUTF8 st c = (Some v, st') →
  accounted (take_hold ext v) [] (cells st').
Proof.
  intros Hacc Hc.
  destruct (construct_Some _ st st' c v Hc) as (b & -> & -> & Hleaf).
  set (lv := fresh (dom (cells st))).
  assert (Hlv : cells st !! lv = None) by apply fresh_cell.
  intros l. specialize (Hacc l). unfold take_hold.
  rewrite (refs_insert _ lv l _ Hlv), Hleaf, holds_cell.
  destruct (decide (lv = l)) as [<-|Hne].
  - rewrite lookup_insert_eq. rewrite Hlv in Hacc. simpl in *. lia.
  - rewrite lookup_insert_ne by done.
    change (holds [] l) with 0. destruct (cells st !! l); simpl in *; lia.
Qed.

Lemma constructor_accounted_witness :
  accounted (take_hold (held {[1%positive := 1]}) (JCell 2)) []
    (cells (construct (λ _, None) store_empty_array InitObject).2).
Proof.
  apply (constructor_accounted (λ _, None) (held {[1%positive := 1]})
           store_empty_array _ InitObject (JCell 2)).
  - apply accounted_check_sound. vm_compute. reflexivity.
  - reflexivity.
Defined.

(** ** Safety of release and append *)

Lemma JsonValueFree_accounted_witness :
  ∃ st',
    JsonValueFree store_array_10_20_30 (Some (JCell 1)) = Done st' ∧
    accounted (relinquish (held {[1%positive := 1]}) (JCell 1)) [] (cells st').
Proof.
  apply (JsonValueFree_accounted (held {[1%positive := 1]})
           store_array_10_20_30 (JCell 1)).
  - apply accounted_check_sound. vm_compute. reflexivity.
  - intros l [= <-]. vm_compute. lia.
Defined.

Lemma JsonArrayAppendValue_accounted_witness :
  accounted (held {[1%positive := 1]}) []
    (cells (JsonArrayAppendValue store_array_10_20_30 (Some (JCell 1))
                                 (Some (JCell 2))).2).
Proof.
  apply (JsonArrayAppendValue_accounted (held {[1%positive := 1]})
           store_array_10_20_30 _ (Some (JCell 1)) (JCell 2)).
  - apply accounted_check_sound. vm_compute. reflexivity.
  - intros l [= <-]. by eexists.
  - reflexivity.
Defined.
